(** * Quarto: game state and rules engine

    A shallow embedding of [src/game_logic/game_state.py] and
    [src/game_logic/rules_engine.py].

    - Python integers are [Z]; the piece pool ([Set[int]]) is a [gset Z];
      the board ([List[List[Optional[QuartoPiece]]]]) is a list of lists
      of optional pieces, indexed the way Python indexes lists.
    - A Python call either returns a value or raises: [result].
    - The engine's methods mutate the [GameState] object they are handed.
      They are functions from the state before the call to the outcome of
      the call together with the state the object is left in, also when the
      call raises: [Eng]. *)

From Stdlib Require Import ZArith Lia.
From stdpp Require Import base option list gmap sets strings.

Open Scope Z_scope.

(** ** Outcomes of Python calls *)

Inductive exn : Type :=
  | ValueError (piece_id : Z)
  | KeyError (key : Z)
  | IndexError
  | AttributeError.

Inductive result (A : Type) : Type :=
  | Ret (a : A)
  | Raise (e : exn).
Arguments Ret {A} a.
Arguments Raise {A} e.

#[global] Instance result_ret : MRet result := @Ret.
#[global] Instance result_bind : MBind result := λ A B f m,
  match m with
  | Ret a => f a
  | Raise e => Raise e
  end.

(** ** Data model ([game_state.py]) *)

Inductive GameStatus : Type := ONGOING | FINISHED | DRAW.
Inductive Player : Type := PLAYER1 | PLAYER2 | ROBOT.

#[global] Instance GameStatus_eq_dec : EqDecision GameStatus.
Proof. solve_decision. Defined.
#[global] Instance Player_eq_dec : EqDecision Player.
Proof. solve_decision. Defined.

Record QuartoPiece : Type := {
  id : Z;
  tall : bool;
  square : bool;
  light : bool;
  solid : bool
}.

#[global] Instance QuartoPiece_eq_dec : EqDecision QuartoPiece.
Proof. solve_decision. Defined.

(** [QuartoPiece.__str__]: the four attribute letters, colon-separated. *)
Definition __str__ (self : QuartoPiece) : string :=
  let height := if tall self then "T" else "S" in
  let shape := if square self then "Q" else "R" in
  let color := if light self then "L" else "D" in
  let fill := if solid self then "S" else "H" in
  (height +:+ ":" +:+ shape +:+ ":" +:+ color +:+ ":" +:+ fill)%string.

Abbreviation Board := (list (list (option QuartoPiece))).

Record GameState : Type := {
  game_id : string;
  current_player : Player;
  board : Board;
  available_pieces : gset Z;
  selected_piece : option QuartoPiece;
  game_status : GameStatus;
  winner : option Player;
  turn_count : Z
}.

(** Attribute assignments [game_state.f = v]. *)
Definition set_current_player (v : Player) (s : GameState) : GameState :=
  {| game_id := game_id s; current_player := v; board := board s;
     available_pieces := available_pieces s;
     selected_piece := selected_piece s; game_status := game_status s;
     winner := winner s; turn_count := turn_count s |}.
Definition set_board (v : Board) (s : GameState) : GameState :=
  {| game_id := game_id s; current_player := current_player s; board := v;
     available_pieces := available_pieces s;
     selected_piece := selected_piece s; game_status := game_status s;
     winner := winner s; turn_count := turn_count s |}.
Definition set_available_pieces (v : gset Z) (s : GameState) : GameState :=
  {| game_id := game_id s; current_player := current_player s;
     board := board s; available_pieces := v;
     selected_piece := selected_piece s; game_status := game_status s;
     winner := winner s; turn_count := turn_count s |}.
Definition set_selected_piece (v : option QuartoPiece) (s : GameState)
  : GameState :=
  {| game_id := game_id s; current_player := current_player s;
     board := board s; available_pieces := available_pieces s;
     selected_piece := v; game_status := game_status s;
     winner := winner s; turn_count := turn_count s |}.
Definition set_game_status (v : GameStatus) (s : GameState) : GameState :=
  {| game_id := game_id s; current_player := current_player s;
     board := board s; available_pieces := available_pieces s;
     selected_piece := selected_piece s; game_status := v;
     winner := winner s; turn_count := turn_count s |}.
Definition set_winner (v : option Player) (s : GameState) : GameState :=
  {| game_id := game_id s; current_player := current_player s;
     board := board s; available_pieces := available_pieces s;
     selected_piece := selected_piece s; game_status := game_status s;
     winner := v; turn_count := turn_count s |}.
Definition set_turn_count (v : Z) (s : GameState) : GameState :=
  {| game_id := game_id s; current_player := current_player s;
     board := board s; available_pieces := available_pieces s;
     selected_piece := selected_piece s; game_status := game_status s;
     winner := winner s; turn_count := v |}.

(** ** Python primitives used by the engine *)

(** [range(n)] for a literal [n]. *)
Definition range (n : nat) : list Z := Z.of_nat <$> seq 0 n.

(** [l[i]]: a negative index counts from the end, anything outside the
    list raises [IndexError]. *)
Definition getitem {A} (l : list A) (i : Z) : result A :=
  let j := if i <? 0 then i + Z.of_nat (length l) else i in
  if j <? 0 then Raise IndexError
  else match l !! Z.to_nat j with
       | Some x => Ret x
       | None => Raise IndexError
       end.

(** [l[i] = x], same indexing. *)
Definition setitem {A} (l : list A) (i : Z) (x : A) : result (list A) :=
  let j := if i <? 0 then i + Z.of_nat (length l) else i in
  if (j <? 0) || (Z.of_nat (length l) <=? j) then Raise IndexError
  else Ret (<[Z.to_nat j := x]> l).

(** [b[row][col]] and [b[row][col] = x]. *)
Definition board_get (b : Board) (row col : Z) : result (option QuartoPiece) :=
  r ← getitem b row; getitem r col.

Definition board_set (b : Board) (row col : Z) (x : option QuartoPiece)
  : result Board :=
  r ← getitem b row; r' ← setitem r col x; setitem b row r'.

(** [s.remove(k)] on a set: [KeyError] when [k] is not a member. *)
Definition set_remove (s : gset Z) (k : Z) : result (gset Z) :=
  if decide (k ∈ s) then Ret (s ∖ {[k]}) else Raise (KeyError k).

(** [p.f] where [p] may be [None]. *)
Definition getattr {A} (f : QuartoPiece → A) (p : option QuartoPiece)
  : result A :=
  match p with
  | Some q => Ret (f q)
  | None => Raise AttributeError
  end.

(** [p is None]. *)
Definition is_None (p : option QuartoPiece) : bool :=
  match p with None => true | Some _ => false end.

(** [len(set(xs))] for a sequence of booleans. *)
Definition len_set (xs : list bool) : nat := length (remove_dups xs).

(** [0 <= i < 4]. *)
Definition in_bounds (i : Z) : bool := (0 <=? i) && (i <? 4).

(** ** [GameState] methods *)

(** The constructor [GameState(game_id=..., current_player=...)], every
    other field taking its declared default. *)
Definition new_game (gid : string) (start : Player) : GameState :=
  {| game_id := gid; current_player := start;
     board := (λ _, (λ _, None) <$> range 4) <$> range 4;
     available_pieces := list_to_set (range 16);
     selected_piece := None; game_status := ONGOING;
     winner := None; turn_count := 0 |}.

Definition get_piece_at (self : GameState) (row col : Z)
  : result (option QuartoPiece) :=
  if in_bounds row && in_bounds col then board_get (board self) row col
  else Ret None.

(** [place_piece] writes the cell, takes the id out of the pool, clears the
    pending piece and counts the turn, when the cell is in bounds and empty
    and the id is in the pool; otherwise it returns [False]. *)
Definition place_piece (self : GameState) (row col : Z) (piece : QuartoPiece)
  : result bool * GameState :=
  match
    (if negb (in_bounds row && in_bounds col) then Ret false
     else c ← board_get (board self) row col;
          Ret (is_None c && bool_decide (id piece ∈ available_pieces self)))
  with
  | Raise e => (Raise e, self)
  | Ret false => (Ret false, self)
  | Ret true =>
      match board_set (board self) row col (Some piece) with
      | Raise e => (Raise e, self)
      | Ret b =>
          let self := set_board b self in
          match set_remove (available_pieces self) (id piece) with
          | Raise e => (Raise e, self)
          | Ret pool =>
              let self := set_available_pieces pool self in
              let self := set_selected_piece None self in
              let self := set_turn_count (turn_count self + 1) self in
              (Ret true, self)
          end
      end
  end.

Definition is_board_full (self : GameState) : bool :=
  bool_decide (size (available_pieces self) = 0%nat).

(** [for x in xs: body], the body updating the list under construction. *)
Fixpoint for_each {A S} (xs : list A) (body : A → S → result S) (acc : S)
  : result S :=
  match xs with
  | [] => Ret acc
  | x :: rest => acc' ← body x acc; for_each rest body acc'
  end.

Definition get_empty_positions (self : GameState) : result (list (Z * Z)) :=
  for_each (range 4) (λ row empty_positions,
    for_each (range 4) (λ col empty_positions,
      c ← board_get (board self) row col;
      if is_None c then Ret (empty_positions ++ [(row, col)])
      else Ret empty_positions) empty_positions) [].

(** ** Rules engine: piece enumeration *)

Definition create_piece_from_id (piece_id : Z) : result QuartoPiece :=
  if negb ((0 <=? piece_id) && (piece_id <=? 15)) then
    Raise (ValueError piece_id)
  else
    Ret {| id := piece_id;
           tall := negb (Z.land piece_id 1 =? 0);
           square := negb (Z.land piece_id 2 =? 0);
           light := negb (Z.land piece_id 4 =? 0);
           solid := negb (Z.land piece_id 8 =? 0) |}.

Definition get_all_pieces : result (list QuartoPiece) :=
  mapM create_piece_from_id (range 16).

(** ** Rules engine: win detection *)

(** The four generators of [check_line_for_shared_attribute], in the order
    [any] consumes them. *)
Definition attributes : list (QuartoPiece → bool) :=
  [tall; square; light; solid].

(** [any(len(set(attr)) == 1 for attr in attributes)]: each generator is
    run only when the ones before it were not unanimous. *)
Fixpoint any_shared (attrs : list (QuartoPiece → bool))
    (pieces : list (option QuartoPiece)) : result bool :=
  match attrs with
  | [] => Ret false
  | f :: rest =>
      vals ← mapM (getattr f) pieces;
      if (len_set vals =? 1)%nat then Ret true else any_shared rest pieces
  end.

Definition check_line_for_shared_attribute
    (pieces : list (option QuartoPiece)) : result bool :=
  if negb (length pieces =? 4)%nat then Ret false
  else any_shared attributes pieces.

Definition check_row_win (game_state : GameState) (row : Z) : result bool :=
  pieces ← mapM (λ col, board_get (board game_state) row col) (range 4);
  if existsb is_None pieces then Ret false
  else check_line_for_shared_attribute pieces.

Definition check_column_win (game_state : GameState) (col : Z)
  : result bool :=
  pieces ← mapM (λ row, board_get (board game_state) row col) (range 4);
  if existsb is_None pieces then Ret false
  else check_line_for_shared_attribute pieces.

(** [if all(...): if check(...): return True], falling through to [k]. *)
Definition diagonal_then (pieces : list (option QuartoPiece))
    (k : result bool) : result bool :=
  if forallb (λ p, negb (is_None p)) pieces then
    w ← check_line_for_shared_attribute pieces;
    if w : bool then Ret true else k
  else k.

Definition check_diagonal_wins (game_state : GameState) : result bool :=
  main_diagonal ← mapM (λ i, board_get (board game_state) i i) (range 4);
  diagonal_then main_diagonal (
    anti_diagonal ←
      mapM (λ i, board_get (board game_state) i (3 - i)) (range 4);
    diagonal_then anti_diagonal (Ret false)).

(** [for x in xs: if test(x): return True], falling through to [k]. *)
Fixpoint first_true (test : Z → result bool) (xs : list Z)
    (k : result bool) : result bool :=
  match xs with
  | [] => k
  | x :: rest =>
      w ← test x;
      if w : bool then Ret true else first_true test rest k
  end.

Definition check_for_win (game_state : GameState) : result bool :=
  first_true (check_row_win game_state) (range 4) (
    first_true (check_column_win game_state) (range 4) (
      w ← check_diagonal_wins game_state;
      if w : bool then Ret true else Ret false)).

(** ** Rules engine: move validation *)

(** The [piece] argument is whatever the caller passes; [make_move] passes
    [game_state.selected_piece], which may be [None]. *)
Definition is_valid_placement (game_state : GameState) (row col : Z)
    (piece : option QuartoPiece) : result bool :=
  oob_or_taken ←
    (if negb (in_bounds row && in_bounds col) then Ret true
     else c ← board_get (board game_state) row col; Ret (negb (is_None c)));
  if oob_or_taken : bool then Ret false
  else match selected_piece game_state with
       | None => Ret false
       | Some sel =>
           pid ← getattr id piece;
           if negb (pid =? id sel) then Ret false else Ret true
       end.

Definition is_valid_piece_selection (game_state : GameState) (piece_id : Z)
  : bool :=
  if (piece_id <? 0) || (piece_id >=? 16) then false
  else if negb (bool_decide (piece_id ∈ available_pieces game_state)) then false
  else if negb (is_None (selected_piece game_state)) then false
  else true.

Definition get_valid_placements (game_state : GameState)
  : result (list (Z * Z)) :=
  if is_None (selected_piece game_state) then Ret []
  else
    for_each (range 4) (λ row valid_positions,
      for_each (range 4) (λ col valid_positions,
        valid ← is_valid_placement game_state row col
                   (selected_piece game_state);
        if valid : bool then Ret (valid_positions ++ [(row, col)])
        else Ret valid_positions) valid_positions) [].

Definition get_available_pieces_for_selection (game_state : GameState)
  : gset Z :=
  available_pieces game_state.

Definition is_game_over (game_state : GameState) : bool :=
  bool_decide (game_status game_state ∈ [FINISHED; DRAW]).

Definition is_draw (game_state : GameState) : result bool :=
  if bool_decide (size (available_pieces game_state) = 0%nat) then
    w ← check_for_win game_state; Ret (negb w)
  else Ret false.

(** [for x in xs: if test(x): return line(x)], falling through to [k]. *)
Fixpoint first_line (test : Z → result bool) (line : Z → list (Z * Z))
    (xs : list Z) (k : result (option (list (Z * Z))))
  : result (option (list (Z * Z))) :=
  match xs with
  | [] => k
  | x :: rest =>
      w ← test x;
      if w : bool then Ret (Some (line x)) else first_line test line rest k
  end.

(** [if all(...): if check(...): return line], falling through to [k]. *)
Definition diagonal_line_then (pieces : list (option QuartoPiece))
    (line : list (Z * Z)) (k : result (option (list (Z * Z))))
  : result (option (list (Z * Z))) :=
  if forallb (λ p, negb (is_None p)) pieces then
    w ← check_line_for_shared_attribute pieces;
    if w : bool then Ret (Some line) else k
  else k.

Definition get_winning_line (game_state : GameState)
  : result (option (list (Z * Z))) :=
  first_line (check_row_win game_state)
    (λ row, (λ col, (row, col)) <$> range 4) (range 4) (
    first_line (check_column_win game_state)
      (λ col, (λ row, (row, col)) <$> range 4) (range 4) (
      main_diagonal ← mapM (λ i, board_get (board game_state) i i) (range 4);
      diagonal_line_then main_diagonal ((λ i, (i, i)) <$> range 4) (
        anti_diagonal ←
          mapM (λ i, board_get (board game_state) i (3 - i)) (range 4);
        diagonal_line_then anti_diagonal ((λ i, (i, 3 - i)) <$> range 4)
          (Ret None)))).

(** ** Rules engine: game flow

    [Eng A]: a method working on the [game_state] object. The state in the
    second component is the one the object is left in, whether the call
    returned or raised. *)

Definition Eng (A : Type) : Type := GameState → result A * GameState.

#[global] Instance Eng_ret : MRet Eng := λ A a s, (Ret a, s).
#[global] Instance Eng_bind : MBind Eng := λ A B f m s,
  match m s with
  | (Ret a, s') => f a s'
  | (Raise e, s') => (Raise e, s')
  end.

(** Read the object. *)
Definition get : Eng GameState := λ s, (Ret s, s).
(** An attribute assignment. *)
Definition assign (f : GameState → GameState) : Eng unit :=
  λ s, (Ret tt, f s).
(** A computation that does not write to the object. *)
Definition pure {A} (r : result A) : Eng A := λ s, (r, s).

(** The source's last branch, for a value outside the enumeration, is
    not reachable: a [Player] is one of the three. *)
Definition switch_player : Eng unit :=
  s ← get;
  match current_player s with
  | PLAYER1 => assign (set_current_player PLAYER2)
  | PLAYER2 => assign (set_current_player PLAYER1)
  | ROBOT => assign (set_current_player PLAYER1)
  end.

Definition update_game_status : Eng unit :=
  s ← get;
  won ← pure (check_for_win s);
  if won : bool then
    assign (set_game_status FINISHED);;
    s ← get;
    assign (set_winner (Some (current_player s)))
  else
    s ← get;
    drawn ← pure (is_draw s);
    if drawn : bool then
      assign (set_game_status DRAW);;
      assign (set_winner None)
    else
      assign (set_game_status ONGOING);;
      assign (set_winner None).

Definition make_move (game_state : GameState) (row col : Z)
  : result bool * GameState :=
  (s ← get;
   valid ← pure (is_valid_placement s row col (selected_piece s));
   if negb valid then mret false
   else
     s ← get;
     b ← pure (board_set (board s) row col (selected_piece s));
     assign (set_board b);;
     s ← get;
     pid ← pure (getattr id (selected_piece s));
     pool ← pure (set_remove (available_pieces s) pid);
     assign (set_available_pieces pool);;
     s ← get;
     assign (set_turn_count (turn_count s + 1));;
     assign (set_selected_piece None);;
     update_game_status;;
     mret true) game_state.

Definition select_piece_for_opponent (game_state : GameState) (piece_id : Z)
  : result bool * GameState :=
  (s ← get;
   if negb (is_valid_piece_selection s piece_id) then mret false
   else
     p ← pure (create_piece_from_id piece_id);
     assign (set_selected_piece (Some p));;
     s ← get;
     pool ← pure (set_remove (available_pieces s) piece_id);
     assign (set_available_pieces pool);;
     switch_player;;
     mret true) game_state.

Definition reset_game (game_state : GameState) : result unit * GameState :=
  (assign (set_board ((λ _, (λ _, None) <$> range 4) <$> range 4));;
   assign (set_available_pieces (list_to_set (range 16)));;
   assign (set_selected_piece None);;
   assign (set_game_status ONGOING);;
   assign (set_winner None);;
   assign (set_turn_count 0);;
   assign (set_current_player PLAYER1)) game_state.

(** * Specification-side notions *)

(** ** The grid *)

(** The board is the 4x4 grid of the data model. *)
Definition board_wf (b : Board) : Prop :=
  length b = 4%nat ∧ Forall (λ r, length r = 4%nat) b.

(** Content of the grid at a coordinate. *)
Definition cell (b : Board) (rc : nat * nat) : option (option QuartoPiece) :=
  b !! rc.1 ≫= (.!! rc.2).

(** The grid with [x] at row [r], column [c]. *)
Definition write_cell (b : Board) (r c : nat) (x : option QuartoPiece)
  : Board :=
  alter (<[c := x]>) r b.

(** ** Pieces *)

(** The piece whose attributes are the bits of its id. *)
Definition piece (piece_id : Z) : QuartoPiece :=
  {| id := piece_id; tall := Z.testbit piece_id 0;
     square := Z.testbit piece_id 1; light := Z.testbit piece_id 2;
     solid := Z.testbit piece_id 3 |}.

(** The attribute tuple of a piece. *)
Definition attrs_of (p : QuartoPiece) : bool * bool * bool * bool :=
  (tall p, square p, light p, solid p).

(** ** Winning lines *)

(** The ten lines of the grid: rows, columns, main and anti diagonal. *)
Definition row_line (r : nat) : list (nat * nat) :=
  (λ c, (r, c)) <$> seq 0 4.
Definition column_line (c : nat) : list (nat * nat) :=
  (λ r, (r, c)) <$> seq 0 4.
Definition main_diagonal_line : list (nat * nat) :=
  (λ i, (i, i)) <$> seq 0 4.
Definition anti_diagonal_line : list (nat * nat) :=
  (λ i, (i, 3 - i)%nat) <$> seq 0 4.
Definition all_lines : list (list (nat * nat)) :=
  (row_line <$> seq 0 4) ++ (column_line <$> seq 0 4) ++
  [main_diagonal_line; anti_diagonal_line].

(** All pieces of [ps] agree on attribute [f]. *)
Definition unanimous (f : QuartoPiece → bool) (ps : list QuartoPiece)
  : Prop :=
  ∀ p q, p ∈ ps → q ∈ ps → f p = f q.

(** Every cell of line [l] is occupied, by the pieces [ps] in order. *)
Definition occupied_by (b : Board) (l : list (nat * nat))
    (ps : list QuartoPiece) : Prop :=
  cell b <$> l = Some ∘ Some <$> ps.

(** Line [l] is fully occupied and its pieces share an attribute. *)
Definition winning_line (b : Board) (l : list (nat * nat)) : Prop :=
  ∃ ps, occupied_by b l ps ∧
        (unanimous tall ps ∨ unanimous square ps ∨
         unanimous light ps ∨ unanimous solid ps).

(** Boolean counterparts, on the contents of a line. *)
Definition shares (ps : list QuartoPiece) : bool :=
  existsb (λ f, (len_set (f <$> ps) =? 1)%nat) attributes.

Fixpoint pieces_of (cs : list (option QuartoPiece))
  : option (list QuartoPiece) :=
  match cs with
  | [] => Some []
  | Some p :: rest => (p ::.) <$> pieces_of rest
  | None :: _ => None
  end.

Definition line_check (cs : list (option QuartoPiece)) : bool :=
  match pieces_of cs with
  | Some ps => shares ps
  | None => false
  end.

(** ** The turn protocol *)

(** The participant who plays after [p]. *)
Definition next_player (p : Player) : Player :=
  match p with
  | PLAYER1 => PLAYER2
  | PLAYER2 => PLAYER1
  | ROBOT => PLAYER1
  end.

(** Legality of a selection: the id is in [0,15], is in the pool, and no
    piece is pending. *)
Definition selection_legal (gs : GameState) (piece_id : Z) : Prop :=
  0 ≤ piece_id ≤ 15 ∧ piece_id ∈ available_pieces gs ∧
  selected_piece gs = None.

#[global] Instance selection_legal_dec gs piece_id :
  Decision (selection_legal gs piece_id).
Proof. unfold selection_legal. apply _. Defined.

(** Legality of a placement of the pending piece: an in-bounds empty cell
    and a piece pending. *)
Definition placement_legal (gs : GameState) (row col : Z) : Prop :=
  0 ≤ row < 4 ∧ 0 ≤ col < 4 ∧
  cell (board gs) (Z.to_nat row, Z.to_nat col) = Some None ∧
  is_Some (selected_piece gs).

#[global] Instance placement_legal_dec gs row col :
  Decision (placement_legal gs row col).
Proof. unfold placement_legal. apply _. Defined.

(** The state after the pending piece [p] went from the pool to the cell at
    ([row], [col]), before the terminal status is recomputed. *)
Definition placed (p : QuartoPiece) (row col : Z) (gs : GameState)
  : GameState :=
  set_selected_piece None
    (set_turn_count (turn_count gs + 1)
       (set_available_pieces (available_pieces gs ∖ {[id p]})
          (set_board (write_cell (board gs) (Z.to_nat row) (Z.to_nat col)
                        (Some p)) gs))).

(** The state with terminal status [st] and winner [w]. *)
Definition with_status (st : GameStatus) (w : option Player)
    (gs : GameState) : GameState :=
  set_winner w (set_game_status st gs).

(** ** The piece partition *)

(** Ids on the board, and the pending id if any. *)
Definition placed_ids (b : Board) : gset Z :=
  list_to_set (id <$> omap (λ c, c) (concat b)).

Definition selected_ids (gs : GameState) : gset Z :=
  match selected_piece gs with
  | Some p => {[id p]}
  | None => ∅
  end.

(** Pool, placed ids and pending id are pairwise disjoint and cover
    exactly {0..15}. *)
Definition partition_ok (gs : GameState) : Prop :=
  available_pieces gs ## placed_ids (board gs) ∧
  available_pieces gs ## selected_ids gs ∧
  placed_ids (board gs) ## selected_ids gs ∧
  available_pieces gs ∪ placed_ids (board gs) ∪ selected_ids gs
    = list_to_set (range 16).

(** One call of an engine operation on the game object, whatever its
    outcome: the object is left in the second state. *)
Inductive engine_step : GameState → GameState → Prop :=
  | step_select gs piece_id :
      engine_step gs (select_piece_for_opponent gs piece_id).2
  | step_move gs row col :
      engine_step gs (make_move gs row col).2
  | step_reset gs :
      engine_step gs (reset_game gs).2.

(** The states the engine operations lead to from a new game. *)
Definition reachable (gid : string) (start : Player) : GameState → Prop :=
  rtc engine_step (new_game gid start).

(** ** Concrete games *)

(** A new game started by player1. *)
Definition fresh_game : GameState := new_game "quarto_game_001" PLAYER1.

(** Player1 has handed piece 0 to player2. *)
Definition after_selection : GameState :=
  (select_piece_for_opponent fresh_game 0).2.

(** Row 0 holds the short pieces 0, 2 and 4; piece 6, also short, is
    pending for player2 and still listed in the pool. *)
Definition before_winning_move : GameState :=
  {| game_id := "quarto_game_001"; current_player := PLAYER2;
     board := [[Some (piece 0); Some (piece 2); Some (piece 4); None];
               [None; None; None; None]; [None; None; None; None];
               [None; None; None; None]];
     available_pieces := list_to_set (range 16) ∖ {[0; 2; 4]};
     selected_piece := Some (piece 6); game_status := ONGOING;
     winner := None; turn_count := 3 |}.

(** A finished game: row 0 holds the short pieces 0, 2, 4 and 6, player2
    has won, twelve pieces remain in the pool and none is pending. *)
Definition finished_game : GameState :=
  {| game_id := "quarto_game_001"; current_player := PLAYER2;
     board := [[Some (piece 0); Some (piece 2); Some (piece 4);
                Some (piece 6)];
               [None; None; None; None]; [None; None; None; None];
               [None; None; None; None]];
     available_pieces := list_to_set (range 16) ∖ {[0; 2; 4; 6]};
     selected_piece := None; game_status := FINISHED;
     winner := Some PLAYER2; turn_count := 4 |}.

(** ** Notions for the further properties *)

(** The bitwise test: some bit set in all four ids, or clear in all four. *)
Definition ids_share_bit (a b c d : Z) : bool :=
  negb (Z.land (Z.land a b) (Z.land c d) =? 0) ||
  negb (Z.lor (Z.lor a b) (Z.lor c d) =? 15).

(** [r] is the normal return of [b]. *)
Definition returns (r : result bool) (b : bool) : bool :=
  match r with
  | Ret x => Bool.eqb x b
  | Raise _ => false
  end.

(** A line of the grid as the coordinate list the engine reports. *)
Definition line_coords (l : list (nat * nat)) : list (Z * Z) :=
  (λ rc, (Z.of_nat rc.1, Z.of_nat rc.2)) <$> l.

(** The first line, in the order given, whose contents pass [line_check]. *)
Fixpoint first_winning (ls : list (list (nat * nat)))
    (css : list (list (option QuartoPiece))) : option (list (nat * nat)) :=
  match ls, css with
  | l :: ls', cs :: css' =>
      if line_check cs then Some l else first_winning ls' css'
  | _, _ => None
  end.

(** The sixteen coordinates, row by row. *)
Definition grid_coords : list (Z * Z) :=
  concat ((λ row, (λ col, (row, col)) <$> range 4) <$> range 4).

(** The cell at integer coordinates [rc] exists and is empty. *)
Definition empty_at (b : Board) (rc : Z * Z) : Prop :=
  cell b (Z.to_nat rc.1, Z.to_nat rc.2) = Some None.

#[global] Instance empty_at_dec b rc : Decision (empty_at b rc).
Proof. unfold empty_at. apply _. Defined.

(** What [place_piece] requires: an in-bounds empty cell and the id of the
    piece in the pool. *)
Definition place_piece_ok (gs : GameState) (row col : Z) (p : QuartoPiece)
  : Prop :=
  0 ≤ row < 4 ∧ 0 ≤ col < 4 ∧
  cell (board gs) (Z.to_nat row, Z.to_nat col) = Some None ∧
  id p ∈ available_pieces gs.

#[global] Instance place_piece_ok_dec gs row col p :
  Decision (place_piece_ok gs row col p).
Proof. unfold place_piece_ok. apply _. Defined.

(** Some line of the board wins. *)
Definition board_won (b : Board) : Prop :=
  ∃ l, l ∈ all_lines ∧ winning_line b l.

(** A drawn game: all sixteen pieces placed, no line sharing an
    attribute, the pool empty and nothing pending. *)
Definition drawn_game : GameState :=
  {| game_id := "quarto_game_001"; current_player := PLAYER2;
     board := (λ row : list Z, (λ i, Some (piece i)) <$> row) <$>
              [[12; 8; 2; 7]; [5; 0; 10; 4]; [11; 14; 9; 3]; [1; 13; 6; 15]];
     available_pieces := ∅;
     selected_piece := None; game_status := DRAW;
     winner := None; turn_count := 16 |}.

(** * Basic facts *)

Lemma board_wf_cells (b : Board) :
  board_wf b →
  ∃ a00 a01 a02 a03 a10 a11 a12 a13 a20 a21 a22 a23 a30 a31 a32 a33,
    b = [[a00; a01; a02; a03]; [a10; a11; a12; a13];
         [a20; a21; a22; a23]; [a30; a31; a32; a33]].
Proof.
  intros [Hlen Hrows].
  destruct b as [|r0 [|r1 [|r2 [|r3 [|? ?]]]]]; try discriminate Hlen.
  clear Hlen.
  repeat match goal with
         | H : Forall _ (_ :: _) |- _ => apply Forall_cons_1 in H as [? H]
         end.
  repeat match goal with
         | H : length ?r = 4%nat |- _ =>
             destruct r as [|? [|? [|? [|? [|? ?]]]]]; try discriminate H;
             clear H
         end.
  repeat eexists.
Qed.

Lemma in_bounds_cases (i : Z) :
  in_bounds i = true ↔ i = 0 ∨ i = 1 ∨ i = 2 ∨ i = 3.
Proof. unfold in_bounds. lia. Qed.

Lemma in_bounds_false (i : Z) : in_bounds i = false ↔ ¬ (0 ≤ i < 4).
Proof. unfold in_bounds. lia. Qed.

(** On a well-formed board an in-bounds read returns the cell. *)
Lemma board_get_in_bounds (b : Board) (row col : Z) :
  board_wf b → in_bounds row = true → in_bounds col = true →
  ∃ c, cell b (Z.to_nat row, Z.to_nat col) = Some c ∧
       board_get b row col = Ret c.
Proof.
  intros Hwf Hr Hc.
  destruct (board_wf_cells b Hwf)
    as (a00&a01&a02&a03&a10&a11&a12&a13&a20&a21&a22&a23&a30&a31&a32&a33&->).
  apply in_bounds_cases in Hr, Hc.
  destruct Hr as [-> | [-> | [-> | ->]]], Hc as [-> | [-> | [-> | ->]]];
    eexists; split; reflexivity.
Qed.

Lemma new_game_wf gid start : board_wf (board (new_game gid start)).
Proof. split; [reflexivity | repeat constructor]. Qed.

(** On a well-formed board an in-bounds write fills the cell. *)
Lemma board_set_in_bounds (b : Board) (row col : Z) (x : option QuartoPiece) :
  board_wf b → 0 ≤ row < 4 → 0 ≤ col < 4 →
  board_set b row col x = Ret (write_cell b (Z.to_nat row) (Z.to_nat col) x).
Proof.
  intros Hwf Hr Hc.
  destruct (board_wf_cells b Hwf)
    as (a00&a01&a02&a03&a10&a11&a12&a13&a20&a21&a22&a23&a30&a31&a32&a33&->).
  assert (in_bounds row = true) as Hr'%in_bounds_cases
    by (unfold in_bounds; lia).
  assert (in_bounds col = true) as Hc'%in_bounds_cases
    by (unfold in_bounds; lia).
  destruct Hr' as [-> | [-> | [-> | ->]]], Hc' as [-> | [-> | [-> | ->]]];
    reflexivity.
Qed.

Lemma write_cell_wf (b : Board) (r c : nat) (x : option QuartoPiece) :
  board_wf b → board_wf (write_cell b r c x).
Proof.
  intros [Hlen Hrows]. unfold write_cell. split.
  - by rewrite length_alter.
  - apply Forall_alter; [done|]. intros row _ Hrow.
    by rewrite length_insert.
Qed.

Lemma write_cell_lookup (b : Board) (r c : nat) (x : option QuartoPiece) :
  is_Some (cell b (r, c)) → cell (write_cell b r c x) (r, c) = Some x.
Proof.
  unfold cell, write_cell. cbn. intros [y Hy].
  destruct (b !! r) as [row|] eqn:Hrow; [|discriminate]. cbn in Hy.
  rewrite list_lookup_alter_eq, Hrow. cbn.
  rewrite list_lookup_insert_eq; [done|]. by eapply lookup_lt_Some.
Qed.

Lemma elem_of_range (n : nat) (k : Z) : k ∈ range n ↔ 0 ≤ k < Z.of_nat n.
Proof.
  unfold range. rewrite list_elem_of_fmap. split.
  - intros (i & -> & Hi%elem_of_seq). lia.
  - intros Hk. exists (Z.to_nat k). rewrite elem_of_seq. lia.
Qed.

Lemma after_selection_wf : board_wf (board after_selection).
Proof. split; [reflexivity | repeat constructor]. Qed.

Lemma before_winning_move_wf : board_wf (board before_winning_move).
Proof. split; [reflexivity | repeat constructor]. Qed.

Lemma finished_game_wf : board_wf (board finished_game).
Proof. split; [reflexivity | repeat constructor]. Qed.

(** * Piece enumeration *)

Lemma piece_id_cases (pid : Z) :
  0 ≤ pid ≤ 15 →
  pid ∈ [0; 1; 2; 3; 4; 5; 6; 7; 8; 9; 10; 11; 12; 13; 14; 15].
Proof.
  intros H. rewrite !elem_of_cons. lia.
Qed.

Lemma create_piece_from_id_ok (pid : Z) :
  0 ≤ pid ≤ 15 →
  create_piece_from_id pid =
    Ret {| id := pid; tall := Z.testbit pid 0; square := Z.testbit pid 1;
           light := Z.testbit pid 2; solid := Z.testbit pid 3 |}.
Proof.
  intros H%piece_id_cases.
  repeat (apply elem_of_cons in H as [->|H]; [reflexivity|]).
  by apply elem_of_nil in H.
Qed.

Lemma create_piece_from_id_raises (pid : Z) :
  ¬ (0 ≤ pid ≤ 15) → create_piece_from_id pid = Raise (ValueError pid).
Proof.
  intros H. unfold create_piece_from_id.
  replace ((0 <=? pid) && (pid <=? 15)) with false by lia. reflexivity.
Qed.

Lemma create_piece_from_id_inv (pid : Z) (p : QuartoPiece) :
  create_piece_from_id pid = Ret p →
  0 ≤ pid ≤ 15 ∧ id p = pid ∧
  attrs_of p = (Z.testbit pid 0, Z.testbit pid 1,
                Z.testbit pid 2, Z.testbit pid 3).
Proof.
  intros H. destruct (decide (0 ≤ pid ≤ 15)) as [Hr|Hr].
  - rewrite create_piece_from_id_ok in H by done.
    injection H as <-. done.
  - rewrite create_piece_from_id_raises in H by done. discriminate.
Qed.

(** Four bits determine a number below 16. *)
Lemma four_bits_inj (i j : Z) :
  0 ≤ i ≤ 15 → 0 ≤ j ≤ 15 →
  (Z.testbit i 0, Z.testbit i 1, Z.testbit i 2, Z.testbit i 3) =
  (Z.testbit j 0, Z.testbit j 1, Z.testbit j 2, Z.testbit j 3) →
  i = j.
Proof.
  intros Hi%piece_id_cases Hj%piece_id_cases.
  repeat (apply elem_of_cons in Hi as [->|Hi]);
    try (by apply elem_of_nil in Hi);
    repeat (apply elem_of_cons in Hj as [->|Hj]);
    try (by apply elem_of_nil in Hj);
    cbv; congruence.
Qed.

(** C8. [create_piece_from_id] is a function of the id (two calls agree);
    on [0,15] it returns the piece whose attributes are the bits of the id
    (bit0 tall, bit1 square, bit2 light, bit3 solid); distinct ids give
    distinct attribute tuples and every tuple is produced, so the 16 pieces
    are in bijection with the 4-bit space; outside [0,15] it raises the
    out-of-range [ValueError]; [get_all_pieces] returns these 16 pieces,
    ids ascending. *)
Theorem create_piece_from_id_enumeration :
  (∀ pid r1 r2,
     create_piece_from_id pid = r1 → create_piece_from_id pid = r2 → r1 = r2) ∧
  (∀ pid, 0 ≤ pid ≤ 15 →
     ∃ p, create_piece_from_id pid = Ret p ∧ id p = pid ∧
          tall p = Z.testbit pid 0 ∧ square p = Z.testbit pid 1 ∧
          light p = Z.testbit pid 2 ∧ solid p = Z.testbit pid 3) ∧
  (∀ i j p q,
     create_piece_from_id i = Ret p → create_piece_from_id j = Ret q →
     attrs_of p = attrs_of q → i = j) ∧
  (∀ t s l d : bool,
     ∃ pid p, 0 ≤ pid ≤ 15 ∧ create_piece_from_id pid = Ret p ∧
              attrs_of p = (t, s, l, d)) ∧
  (∀ pid, ¬ (0 ≤ pid ≤ 15) →
     create_piece_from_id pid = Raise (ValueError pid)) ∧
  (∃ ps, get_all_pieces = Ret ps ∧
         id <$> ps = [0; 1; 2; 3; 4; 5; 6; 7; 8; 9; 10; 11; 12; 13; 14; 15] ∧
         Forall2 (λ pid p, create_piece_from_id pid = Ret p) (range 16) ps).
Proof.
  split_and!.
  - congruence.
  - intros pid H. rewrite create_piece_from_id_ok by done.
    eexists; split_and!; reflexivity.
  - intros i j p q Hp Hq Hpq.
    apply create_piece_from_id_inv in Hp as (Hi & _ & Hp).
    apply create_piece_from_id_inv in Hq as (Hj & _ & Hq).
    apply four_bits_inj; congruence.
  - intros t s l d.
    exists ((if t then 1 else 0) + (if s then 2 else 0) +
            (if l then 4 else 0) + (if d then 8 else 0)).
    destruct t, s, l, d; eexists; split_and!; (lia || reflexivity).
  - apply create_piece_from_id_raises.
  - eexists; split_and!; [reflexivity | reflexivity |].
    repeat constructor.
Qed.

(** * Reading a cell *)

(** C10. On the 4x4 board [get_piece_at] always returns: for [row] and
    [col] both in [0,3] it returns the content of the cell (a piece or
    [None]); for any other [row] or [col] it returns [None], the very value
    an empty cell reads as, and never raises. *)
Theorem get_piece_at_total (self : GameState) (row col : Z) :
  board_wf (board self) →
  (0 ≤ row < 4 ∧ 0 ≤ col < 4 →
   ∃ c, cell (board self) (Z.to_nat row, Z.to_nat col) = Some c ∧
        get_piece_at self row col = Ret c) ∧
  (¬ (0 ≤ row < 4 ∧ 0 ≤ col < 4) → get_piece_at self row col = Ret None) ∧
  (∀ row' col', cell (board self) (row', col') = Some None →
     ¬ (0 ≤ row < 4 ∧ 0 ≤ col < 4) →
     get_piece_at self row col =
     get_piece_at self (Z.of_nat row') (Z.of_nat col')).
Proof.
  intros Hwf. unfold get_piece_at.
  assert (Hout : ¬ (0 ≤ row < 4 ∧ 0 ≤ col < 4) →
                 in_bounds row && in_bounds col = false).
  { unfold in_bounds. lia. }
  split_and!.
  - intros [Hr Hc].
    assert (in_bounds row = true) as Hr' by (unfold in_bounds; lia).
    assert (in_bounds col = true) as Hc' by (unfold in_bounds; lia).
    rewrite Hr', Hc'. by apply board_get_in_bounds.
  - intros H. by rewrite Hout.
  - intros row' col' Hcell H. rewrite Hout by done.
    destruct (board_wf_cells _ Hwf)
      as (a00&a01&a02&a03&a10&a11&a12&a13&a20&a21&a22&a23&a30&a31&a32&a33&Hb).
    rewrite Hb in *.
    destruct row' as [|[|[|[|?]]]]; try discriminate Hcell;
      destruct col' as [|[|[|[|?]]]]; try discriminate Hcell;
      cbv in Hcell; injection Hcell as ->; reflexivity.
Qed.

Lemma get_piece_at_total_witness :
  get_piece_at finished_game (-1) 7 = Ret None ∧
  ∃ c, cell (board finished_game) (Z.to_nat 0, Z.to_nat 1) = Some c ∧
       get_piece_at finished_game 0 1 = Ret c.
Proof.
  split.
  - apply (get_piece_at_total finished_game (-1) 7 finished_game_wf). lia.
  - apply (get_piece_at_total finished_game 0 1 finished_game_wf). lia.
Defined.

(** * Win detection *)

Lemma len_set_one (xs : list bool) :
  xs ≠ [] → (len_set xs = 1%nat ↔ ∀ x y, x ∈ xs → y ∈ xs → x = y).
Proof.
  intros Hne. unfold len_set. split.
  - intros Hlen x y Hx%elem_of_remove_dups Hy%elem_of_remove_dups.
    destruct (remove_dups xs) as [|v [|? ?]]; try discriminate Hlen.
    apply list_elem_of_singleton in Hx, Hy. congruence.
  - intros Hall.
    pose proof (NoDup_remove_dups xs) as Hnd.
    destruct xs as [|x0 xs']; [done|].
    assert (x0 ∈ remove_dups (x0 :: xs')) as H0
      by (apply elem_of_remove_dups; left).
    destruct (remove_dups (x0 :: xs')) as [|v [|w ?]] eqn:E.
    + by apply elem_of_nil in H0.
    + reflexivity.
    + exfalso. apply NoDup_cons in Hnd as [Hv _]. apply Hv.
      assert (v = w) as ->; [|left].
      apply Hall; apply elem_of_remove_dups; rewrite E;
        [left | right; left].
Qed.

Lemma mapM_getattr (A : Type) (f : QuartoPiece → A) (ps : list QuartoPiece) :
  mapM (getattr f) (Some <$> ps) = Ret (f <$> ps).
Proof.
  induction ps as [|p ps IH]; [reflexivity|].
  cbn. cbn in IH. rewrite IH. reflexivity.
Qed.

Lemma unanimous_fmap (f : QuartoPiece → bool) (ps : list QuartoPiece) :
  unanimous f ps ↔ ∀ x y, x ∈ f <$> ps → y ∈ f <$> ps → x = y.
Proof.
  unfold unanimous. split.
  - intros H x y (p & -> & Hp)%list_elem_of_fmap (q & -> & Hq)%list_elem_of_fmap.
    by apply H.
  - intros H p q Hp Hq. apply H; by apply list_elem_of_fmap_2.
Qed.

Lemma len_set_unanimous (f : QuartoPiece → bool) (ps : list QuartoPiece) :
  ps ≠ [] → ((len_set (f <$> ps) =? 1)%nat = true ↔ unanimous f ps).
Proof.
  intros Hne. rewrite Nat.eqb_eq, unanimous_fmap.
  apply len_set_one. by destruct ps.
Qed.

Lemma shares_spec (ps : list QuartoPiece) :
  ps ≠ [] →
  shares ps = true ↔
  unanimous tall ps ∨ unanimous square ps ∨
  unanimous light ps ∨ unanimous solid ps.
Proof.
  intros Hne. unfold shares, attributes. cbn [existsb].
  rewrite !orb_true_iff, !len_set_unanimous by done.
  intuition discriminate.
Qed.

Lemma any_shared_pieces (attrs : list (QuartoPiece → bool))
    (ps : list QuartoPiece) :
  any_shared attrs (Some <$> ps) =
  Ret (existsb (λ f, (len_set (f <$> ps) =? 1)%nat) attrs).
Proof.
  induction attrs as [|f attrs IH]; [reflexivity|].
  cbn [any_shared existsb]. rewrite mapM_getattr. cbn.
  destruct (len_set (f <$> ps) =? 1)%nat; [reflexivity | apply IH].
Qed.

(** A line's contents either are all pieces or include an empty cell. *)
Lemma pieces_of_pieces (ps : list QuartoPiece) :
  pieces_of (Some <$> ps) = Some ps.
Proof. induction ps as [|p ps IH]; [done|]. cbn. by rewrite IH. Qed.

Lemma line_contents (cs : list (option QuartoPiece)) :
  (∃ ps, cs = Some <$> ps) ∨
  (existsb is_None cs = true ∧
   forallb (λ p, negb (is_None p)) cs = false ∧ pieces_of cs = None).
Proof.
  induction cs as [|[p|] cs IH].
  - left. by exists [].
  - destruct IH as [[ps ->]|(H1 & H2 & H3)].
    + left. by exists (p :: ps).
    + right. cbn. by rewrite H1, H2, H3.
  - right. done.
Qed.

Lemma line_contents_pieces (ps : list QuartoPiece) :
  existsb is_None (Some <$> ps) = false ∧
  forallb (λ p, negb (is_None p)) (Some <$> ps) = true.
Proof.
  induction ps as [|p ps [H1 H2]]; [done|]. cbn. by rewrite H1, H2.
Qed.

Lemma row_column_guard (cs : list (option QuartoPiece)) :
  length cs = 4%nat →
  (if existsb is_None cs then Ret false
   else check_line_for_shared_attribute cs) = Ret (line_check cs).
Proof.
  intros Hlen. unfold line_check.
  destruct (line_contents cs) as [[ps ->]|(H1 & _ & H3)].
  - destruct (line_contents_pieces ps) as [-> _].
    rewrite pieces_of_pieces. unfold check_line_for_shared_attribute.
    rewrite Hlen. cbn [Nat.eqb negb]. apply any_shared_pieces.
  - by rewrite H1, H3.
Qed.

Lemma diagonal_guard (cs : list (option QuartoPiece)) (k : result bool) :
  length cs = 4%nat →
  diagonal_then cs k = if line_check cs then Ret true else k.
Proof.
  intros Hlen. unfold line_check, diagonal_then.
  destruct (line_contents cs) as [[ps ->]|(_ & H2 & H3)].
  - destruct (line_contents_pieces ps) as [_ ->].
    rewrite pieces_of_pieces. unfold check_line_for_shared_attribute.
    rewrite Hlen. cbn [Nat.eqb negb]. rewrite any_shared_pieces. reflexivity.
  - by rewrite H2, H3.
Qed.

Section explicit_board.
Context (a00 a01 a02 a03 a10 a11 a12 a13
         a20 a21 a22 a23 a30 a31 a32 a33 : option QuartoPiece).
Context (game_state : GameState).
Hypothesis Hboard :
  board game_state = [[a00; a01; a02; a03]; [a10; a11; a12; a13];
                      [a20; a21; a22; a23]; [a30; a31; a32; a33]].

Lemma check_row_win_explicit :
  check_row_win game_state 0 = Ret (line_check [a00; a01; a02; a03]) ∧
  check_row_win game_state 1 = Ret (line_check [a10; a11; a12; a13]) ∧
  check_row_win game_state 2 = Ret (line_check [a20; a21; a22; a23]) ∧
  check_row_win game_state 3 = Ret (line_check [a30; a31; a32; a33]).
Proof.
  unfold check_row_win. rewrite Hboard.
  split_and!;
    (etrans; [|apply row_column_guard; reflexivity]); reflexivity.
Qed.

Lemma check_column_win_explicit :
  check_column_win game_state 0 = Ret (line_check [a00; a10; a20; a30]) ∧
  check_column_win game_state 1 = Ret (line_check [a01; a11; a21; a31]) ∧
  check_column_win game_state 2 = Ret (line_check [a02; a12; a22; a32]) ∧
  check_column_win game_state 3 = Ret (line_check [a03; a13; a23; a33]).
Proof.
  unfold check_column_win. rewrite Hboard.
  split_and!;
    (etrans; [|apply row_column_guard; reflexivity]); reflexivity.
Qed.

Lemma check_diagonal_wins_explicit :
  check_diagonal_wins game_state =
  Ret (line_check [a00; a11; a22; a33] || line_check [a03; a12; a21; a30]).
Proof.
  unfold check_diagonal_wins. rewrite Hboard.
  set (b := [[a00; a01; a02; a03]; _; _; _]).
  assert (mapM (λ i, board_get b i i) (range 4)
          = Ret [a00; a11; a22; a33]) as -> by reflexivity.
  assert (mapM (λ i, board_get b i (3 - i)) (range 4)
          = Ret [a03; a12; a21; a30]) as -> by reflexivity.
  cbn [mbind result_bind]. rewrite !diagonal_guard by reflexivity.
  by repeat destruct (line_check _).
Qed.

Lemma check_for_win_explicit :
  check_for_win game_state =
  Ret (existsb line_check
         [[a00; a01; a02; a03]; [a10; a11; a12; a13];
          [a20; a21; a22; a23]; [a30; a31; a32; a33];
          [a00; a10; a20; a30]; [a01; a11; a21; a31];
          [a02; a12; a22; a32]; [a03; a13; a23; a33];
          [a00; a11; a22; a33]; [a03; a12; a21; a30]]).
Proof.
  destruct check_row_win_explicit as (R0 & R1 & R2 & R3).
  destruct check_column_win_explicit as (C0 & C1 & C2 & C3).
  unfold check_for_win. change (range 4) with [0; 1; 2; 3].
  cbn [first_true].
  rewrite R0, R1, R2, R3, C0, C1, C2, C3, check_diagonal_wins_explicit.
  cbn [existsb mbind result_bind].
  by repeat destruct (line_check _).
Qed.
End explicit_board.

Lemma winning_line_check (b : Board) (l : list (nat * nat))
    (cs : list (option QuartoPiece)) :
  cell b <$> l = Some <$> cs → cs ≠ [] →
  winning_line b l ↔ line_check cs = true.
Proof.
  intros Hcells Hne. unfold winning_line, occupied_by, line_check.
  rewrite Hcells. split.
  - intros (ps & Hocc & Hshared).
    rewrite (list_fmap_compose Some Some ps) in Hocc.
    apply (inj (fmap Some)) in Hocc as ->.
    rewrite pieces_of_pieces. apply shares_spec; [by destruct ps | done].
  - intros Hcheck.
    destruct (line_contents cs) as [[ps ->]|(_ & _ & Hnone)].
    + rewrite pieces_of_pieces in Hcheck. exists ps.
      split; [by rewrite <- list_fmap_compose|].
      apply shares_spec; [by destruct ps | done].
    + by rewrite Hnone in Hcheck.
Qed.

Lemma Exists_existsb {A B} (P : A → Prop) (f : B → bool)
    (xs : list A) (ys : list B) :
  Forall2 (λ x y, P x ↔ f y = true) xs ys →
  Exists P xs ↔ existsb f ys = true.
Proof.
  induction 1 as [|x y xs ys Hxy _ IH]; cbn.
  - rewrite Exists_nil. done.
  - rewrite Exists_cons, orb_true_iff, Hxy, IH. done.
Qed.

(** The contents of the ten lines of a 4x4 board, in the order of
    [all_lines]. *)
Lemma all_lines_contents
    (a00 a01 a02 a03 a10 a11 a12 a13
     a20 a21 a22 a23 a30 a31 a32 a33 : option QuartoPiece) :
  Forall2 (λ l cs,
      winning_line [[a00; a01; a02; a03]; [a10; a11; a12; a13];
                    [a20; a21; a22; a23]; [a30; a31; a32; a33]] l
      ↔ line_check cs = true)
    all_lines
    [[a00; a01; a02; a03]; [a10; a11; a12; a13];
     [a20; a21; a22; a23]; [a30; a31; a32; a33];
     [a00; a10; a20; a30]; [a01; a11; a21; a31];
     [a02; a12; a22; a32]; [a03; a13; a23; a33];
     [a00; a11; a22; a33]; [a03; a12; a21; a30]].
Proof.
  let ls := eval vm_compute in all_lines in change all_lines with ls.
  repeat match goal with |- Forall2 _ _ _ => constructor end;
    (apply winning_line_check; [reflexivity | done]).
Qed.

(** C3. On the 4x4 board [check_for_win] returns, and returns [True]
    exactly when one of the ten lines (four rows, four columns, two
    diagonals) has its four cells occupied by pieces that agree on at least
    one of tall, square, light, solid. A line with an empty cell is not
    [occupied_by] any pieces and a full line that agrees on no attribute is
    not [unanimous] on any, so neither counts. *)
Theorem check_for_win_iff (game_state : GameState) :
  board_wf (board game_state) →
  ∃ w, check_for_win game_state = Ret w ∧
       (w = true ↔
        ∃ l, l ∈ all_lines ∧ winning_line (board game_state) l).
Proof.
  intros Hwf.
  destruct (board_wf_cells _ Hwf)
    as (a00&a01&a02&a03&a10&a11&a12&a13&a20&a21&a22&a23&a30&a31&a32&a33&Hb).
  rewrite (check_for_win_explicit _ _ _ _ _ _ _ _ _ _ _ _ _ _ _ _ _ Hb).
  eexists; split; [reflexivity|].
  rewrite Hb, <- Exists_exists. symmetry.
  apply Exists_existsb, all_lines_contents.
Qed.

Lemma check_for_win_iff_witness :
  ∃ w, check_for_win finished_game = Ret w ∧
       (w = true ↔
        ∃ l, l ∈ all_lines ∧ winning_line (board finished_game) l).
Proof. apply (check_for_win_iff finished_game), finished_game_wf. Defined.

(** Row 0 holding pieces 0, 2, 4, 6 (all short, otherwise mixed) wins. *)
Example check_for_win_short_row : check_for_win finished_game = Ret true.
Proof. reflexivity. Qed.

(** Pieces 0, 15, 1, 14 agree on no attribute: a full line of them does
    not count, nor does a line with an empty cell. *)
Example line_check_no_shared_attribute :
  line_check [Some (piece 0); Some (piece 15); Some (piece 1);
              Some (piece 14)] = false ∧
  line_check [Some (piece 0); Some (piece 2); None; Some (piece 6)] = false.
Proof. split; reflexivity. Qed.

(** * Move validation *)

Lemma is_valid_piece_selection_spec (gs : GameState) (piece_id : Z) :
  is_valid_piece_selection gs piece_id = true ↔ selection_legal gs piece_id.
Proof.
  unfold is_valid_piece_selection, selection_legal.
  destruct (selected_piece gs) as [p|]; cbn;
    case_bool_decide; cbn;
    destruct (piece_id <? 0) eqn:?, (piece_id >=? 16) eqn:?; cbn;
    split; try discriminate; try (intros (? & ? & ?); done || lia);
    intros _; split_and!; done || lia.
Qed.

Lemma is_valid_placement_spec (gs : GameState) (row col : Z) :
  board_wf (board gs) →
  is_valid_placement gs row col (selected_piece gs)
  = Ret (bool_decide (placement_legal gs row col)).
Proof.
  intros Hwf. unfold is_valid_placement.
  destruct (in_bounds row) eqn:Hr; cycle 1.
  { apply in_bounds_false in Hr. rewrite bool_decide_eq_false_2; [done|].
    intros (? & _); lia. }
  destruct (in_bounds col) eqn:Hc; cycle 1.
  { apply in_bounds_false in Hc. rewrite bool_decide_eq_false_2; [done|].
    intros (? & ? & _); lia. }
  destruct (board_get_in_bounds _ row col Hwf Hr Hc) as (c & Hcell & ->).
  apply in_bounds_cases in Hr, Hc.
  destruct c as [q|]; cbn.
  - rewrite bool_decide_eq_false_2; [done|].
    intros (_ & _ & ? & _); congruence.
  - destruct (selected_piece gs) as [p|] eqn:Hsel; cbn.
    + rewrite Z.eqb_refl, bool_decide_eq_true_2; [done|].
      unfold placement_legal. rewrite Hsel. split_and!; done || lia.
    + rewrite bool_decide_eq_false_2; [done|].
      intros (_ & _ & _ & [? ?]); congruence.
Qed.

(** * Game flow *)

Lemma check_for_win_board (gs gs' : GameState) :
  board gs = board gs' → check_for_win gs = check_for_win gs'.
Proof.
  intros H.
  unfold check_for_win, check_row_win, check_column_win, check_diagonal_wins.
  by rewrite H.
Qed.

Lemma update_game_status_cases (gs : GameState) :
  update_game_status gs =
  match check_for_win gs with
  | Raise e => (Raise e, gs)
  | Ret true => (Ret tt, with_status FINISHED (Some (current_player gs)) gs)
  | Ret false =>
      if bool_decide (size (available_pieces gs) = 0%nat)
      then (Ret tt, with_status DRAW None gs)
      else (Ret tt, with_status ONGOING None gs)
  end.
Proof.
  unfold update_game_status, is_draw, mbind, Eng_bind, get, pure, assign.
  destruct (check_for_win gs) as [[|]|e] eqn:Hwin; try reflexivity.
  case_bool_decide; [rewrite Hwin|]; reflexivity.
Qed.

(** The state [make_move] hands to [update_game_status]. *)
Lemma make_move_cases (gs : GameState) (row col : Z) :
  board_wf (board gs) →
  make_move gs row col =
  if bool_decide (placement_legal gs row col) then
    match selected_piece gs with
    | Some p =>
        let written :=
          set_board (write_cell (board gs) (Z.to_nat row) (Z.to_nat col)
                       (Some p)) gs in
        if decide (id p ∈ available_pieces gs) then
          match update_game_status (placed p row col gs) with
          | (Ret _, gs') => (Ret true, gs')
          | (Raise e, gs') => (Raise e, gs')
          end
        else (Raise (KeyError (id p)), written)
    | None => (Ret false, gs)
    end
  else (Ret false, gs).
Proof.
  intros Hwf. unfold make_move, mbind, Eng_bind, get, pure, assign.
  rewrite is_valid_placement_spec by done.
  case_bool_decide as Hlegal; [|reflexivity]. cbn [negb].
  destruct Hlegal as (Hr & Hc & Hcell & [p Hp]). rewrite !Hp.
  rewrite (board_set_in_bounds _ row col (Some p)) by done.
  cbn [set_board selected_piece available_pieces].
  rewrite Hp. cbn [getattr]. unfold set_remove.
  destruct (decide (id p ∈ available_pieces gs)); [|reflexivity].
  unfold placed. by destruct (update_game_status _) as [[[]|?] ?].
Qed.

Lemma switch_player_next (gs : GameState) :
  switch_player gs
  = (Ret tt, set_current_player (next_player (current_player gs)) gs).
Proof.
  unfold switch_player, mbind, Eng_bind, get, assign.
  by destruct (current_player gs).
Qed.

Lemma select_piece_for_opponent_accepted (gs : GameState) (piece_id : Z) :
  selection_legal gs piece_id →
  select_piece_for_opponent gs piece_id =
  (Ret true,
   {| game_id := game_id gs;
      current_player := next_player (current_player gs);
      board := board gs;
      available_pieces := available_pieces gs ∖ {[piece_id]};
      selected_piece := Some (piece piece_id);
      game_status := game_status gs;
      winner := winner gs;
      turn_count := turn_count gs |}).
Proof.
  intros Hlegal. pose proof Hlegal as (Hrange & Hpool & Hsel).
  apply is_valid_piece_selection_spec in Hlegal.
  unfold select_piece_for_opponent, mbind, Eng_bind, get, pure, assign.
  rewrite Hlegal. cbn [negb].
  rewrite create_piece_from_id_ok by done.
  cbn [available_pieces set_selected_piece]. unfold set_remove.
  rewrite decide_True by done.
  rewrite switch_player_next. reflexivity.
Qed.

Lemma select_piece_for_opponent_refused (gs : GameState) (piece_id : Z) :
  ¬ selection_legal gs piece_id →
  select_piece_for_opponent gs piece_id = (Ret false, gs).
Proof.
  intros Hillegal.
  unfold select_piece_for_opponent, mbind, Eng_bind, get.
  destruct (is_valid_piece_selection gs piece_id) eqn:Hvalid; [|done].
  by apply is_valid_piece_selection_spec in Hvalid.
Qed.

(** C4. [select_piece_for_opponent] returns [True] exactly when the id is
    in [0,15], is in the pool and no piece is pending; it then leaves the
    state with the piece built from the id pending, the id out of the pool
    and the turn passed on (player1 to player2, player2 to player1, robot
    to player1), every other field as it was. Otherwise it returns [False]
    and leaves the state as it was. *)
Theorem select_piece_for_opponent_spec (gs : GameState) (piece_id : Z) :
  ((select_piece_for_opponent gs piece_id).1 = Ret true
   ↔ selection_legal gs piece_id) ∧
  (selection_legal gs piece_id →
   ∃ p, create_piece_from_id piece_id = Ret p ∧
        select_piece_for_opponent gs piece_id =
        (Ret true,
         {| game_id := game_id gs;
            current_player := next_player (current_player gs);
            board := board gs;
            available_pieces := available_pieces gs ∖ {[piece_id]};
            selected_piece := Some p;
            game_status := game_status gs;
            winner := winner gs;
            turn_count := turn_count gs |})) ∧
  (¬ selection_legal gs piece_id →
   select_piece_for_opponent gs piece_id = (Ret false, gs)).
Proof.
  split_and!.
  - destruct (decide (selection_legal gs piece_id)) as [Hlegal|Hillegal].
    + by rewrite select_piece_for_opponent_accepted.
    + rewrite select_piece_for_opponent_refused by done. cbn.
      split; [discriminate | done].
  - intros Hlegal. exists (piece piece_id).
    split; [|by apply select_piece_for_opponent_accepted].
    apply create_piece_from_id_ok, Hlegal.
  - apply select_piece_for_opponent_refused.
Qed.

(** ** Placement *)

Lemma make_move_rejected (gs : GameState) (row col : Z) :
  board_wf (board gs) → ¬ placement_legal gs row col →
  make_move gs row col = (Ret false, gs).
Proof.
  intros Hwf Hillegal. rewrite make_move_cases by done.
  by rewrite bool_decide_eq_false_2.
Qed.

(** [GameState.place_piece] takes the id out of the pool itself, and
    refuses a piece whose id is not there. *)
Lemma place_piece_needs_pool
    (gs : GameState) (row col : Z) (p : QuartoPiece) :
  board_wf (board gs) → id p ∉ available_pieces gs →
  place_piece gs row col p = (Ret false, gs).
Proof.
  intros Hwf Hpool. unfold place_piece.
  destruct (in_bounds row) eqn:Hr; [|done].
  destruct (in_bounds col) eqn:Hc; [|done].
  destruct (board_get_in_bounds _ row col Hwf Hr Hc) as (c & _ & ->).
  cbn. rewrite bool_decide_eq_false_2 by done.
  by rewrite andb_false_r.
Qed.

(** C1 (the code departs from it). With a piece pending whose id left the
    pool at selection time, a placement on an in-bounds empty cell does not
    return: the cell is written, then removing the id from the pool a second
    time raises [KeyError]; the piece stays pending and the turn count and
    status are not touched. *)
Theorem make_move_after_selection_raises
    (gs : GameState) (row col : Z) (p : QuartoPiece) :
  board_wf (board gs) →
  selected_piece gs = Some p → id p ∉ available_pieces gs →
  0 ≤ row < 4 → 0 ≤ col < 4 →
  cell (board gs) (Z.to_nat row, Z.to_nat col) = Some None →
  ∃ gs', make_move gs row col = (Raise (KeyError (id p)), gs') ∧
         cell (board gs') (Z.to_nat row, Z.to_nat col) = Some (Some p) ∧
         selected_piece gs' = Some p ∧
         turn_count gs' = turn_count gs ∧
         game_status gs' = game_status gs.
Proof.
  intros Hwf Hsel Hpool Hr Hc Hcell.
  rewrite make_move_cases by done.
  rewrite bool_decide_eq_true_2
    by (unfold placement_legal; rewrite Hsel; done).
  rewrite Hsel. cbn zeta. rewrite decide_False by done.
  eexists; split_and!; try done.
  cbn [board set_board]. apply write_cell_lookup. by rewrite Hcell.
Qed.

(** Player1 hands piece 0 to player2 in a fresh game: player2 is to play,
    the pool has lost 0, piece 0 is pending. *)
Example after_selection_eq :
  select_piece_for_opponent fresh_game 0 =
  (Ret true,
   {| game_id := "quarto_game_001"; current_player := PLAYER2;
      board := [[None; None; None; None]; [None; None; None; None];
                [None; None; None; None]; [None; None; None; None]];
      available_pieces := list_to_set (range 16) ∖ {[0]};
      selected_piece := Some (piece 0); game_status := ONGOING;
      winner := None; turn_count := 0 |}).
Proof. vm_compute. reflexivity. Qed.

Lemma make_move_after_selection_raises_witness :
  ∃ gs', make_move after_selection 0 0 = (Raise (KeyError 0), gs') ∧
         cell (board gs') (0%nat, 0%nat) = Some (Some (piece 0)) ∧
         selected_piece gs' = Some (piece 0) ∧
         turn_count gs' = 0 ∧
         game_status gs' = ONGOING.
Proof.
  apply (make_move_after_selection_raises after_selection 0 0 (piece 0)).
  - exact after_selection_wf.
  - reflexivity.
  - vm_compute. discriminate.
  - lia.
  - lia.
  - reflexivity.
Defined.

(** A rejected operation leaves the state as it was. *)
Lemma select_piece_for_opponent_rejected (gs gs' : GameState) (piece_id : Z) :
  select_piece_for_opponent gs piece_id = (Ret false, gs') → gs' = gs.
Proof.
  destruct (decide (selection_legal gs piece_id)) as [Hlegal|Hillegal].
  - rewrite select_piece_for_opponent_accepted by done. discriminate.
  - rewrite select_piece_for_opponent_refused by done. congruence.
Qed.

Lemma make_move_returned (gs gs' : GameState) (row col : Z) (r : bool) :
  board_wf (board gs) →
  make_move gs row col = (Ret r, gs') →
  (r = false ∧ gs' = gs) ∨
  (r = true ∧ ∃ p, placement_legal gs row col ∧ selected_piece gs = Some p ∧
                   id p ∈ available_pieces gs ∧
                   update_game_status (placed p row col gs) = (Ret tt, gs')).
Proof.
  intros Hwf. rewrite make_move_cases by done.
  case_bool_decide as Hlegal; [|left; split; congruence].
  destruct (selected_piece gs) as [p|]; [|left; split; congruence].
  cbn zeta. case_decide as Hpool; [|discriminate].
  destruct (update_game_status _) as [[[]|e] s] eqn:Hstatus; [|discriminate].
  intros [= <- <-]. right. split; [done|]. by exists p.
Qed.

(** C2 (the code departs from it). After player1 hands piece 0 to player2
    in a fresh game, the placement at (0,0) raises in the middle of its
    effects: the cell, empty before, holds the piece, while the piece is
    still pending and the turn count is still 0. The state is neither the
    one before the call nor the one a completed placement gives. *)
Theorem make_move_partial_mutation :
  cell (board after_selection) (0%nat, 0%nat) = Some None ∧
  ∃ gs', make_move after_selection 0 0 = (Raise (KeyError 0), gs') ∧
         gs' ≠ after_selection ∧
         gs' ≠ placed (piece 0) 0 0 after_selection ∧
         cell (board gs') (0%nat, 0%nat) = Some (Some (piece 0)) ∧
         selected_piece gs' = selected_piece after_selection ∧
         available_pieces gs' = available_pieces after_selection ∧
         turn_count gs' = turn_count after_selection.
Proof.
  split; [reflexivity|].
  eexists. split; [vm_compute; reflexivity|].
  split_and!; try reflexivity.
  - intros H. apply (f_equal (λ s, cell (board s) (0%nat, 0%nat))) in H.
    vm_compute in H. discriminate.
  - intros H. apply (f_equal selected_piece) in H.
    vm_compute in H. discriminate.
Qed.

(** C5. When a placement succeeds and the board then has a win, the status
    is finished and the winner is the player whose turn it was when the
    placement was made; the placement does not change whose turn it is. *)
Theorem make_move_win_sets_mover (gs gs' : GameState) (row col : Z) :
  board_wf (board gs) →
  make_move gs row col = (Ret true, gs') →
  check_for_win gs' = Ret true →
  game_status gs' = FINISHED ∧
  winner gs' = Some (current_player gs) ∧
  current_player gs' = current_player gs.
Proof.
  intros Hwf Hmove Hwin.
  apply make_move_returned in Hmove as [[? _]|(_ & p & _ & _ & _ & Hstatus)];
    [discriminate | | done].
  rewrite update_game_status_cases in Hstatus.
  rewrite (check_for_win_board gs' (placed p row col gs)) in Hwin.
  - rewrite Hwin in Hstatus. by simplify_eq.
  - destruct (check_for_win (placed p row col gs)) as [[|]|e];
      [| case_bool_decide |]; by simplify_eq.
Qed.

Lemma make_move_win_sets_mover_witness :
  game_status (make_move before_winning_move 0 3).2 = FINISHED ∧
  winner (make_move before_winning_move 0 3).2 = Some PLAYER2 ∧
  current_player (make_move before_winning_move 0 3).2 = PLAYER2.
Proof.
  apply (make_move_win_sets_mover before_winning_move _ 0 3).
  - exact before_winning_move_wf.
  - vm_compute. reflexivity.
  - vm_compute. reflexivity.
Defined.

(** ** Terminal states *)

(** C6 as stated fails: in a finished game with pieces left in the pool and
    none pending, a selection is accepted and changes the state. *)
Lemma finished_game_accepts_selection :
  game_status finished_game = FINISHED ∧
  is_game_over finished_game = true ∧
  select_piece_for_opponent finished_game 1 =
  (Ret true,
   set_current_player PLAYER1
     (set_available_pieces (list_to_set (range 16) ∖ {[0; 2; 4; 6]} ∖ {[1]})
        (set_selected_piece (Some (piece 1)) finished_game))) ∧
  (select_piece_for_opponent finished_game 1).2 ≠ finished_game.
Proof.
  split_and!; try (vm_compute; reflexivity).
  intros H. apply (f_equal selected_piece) in H. vm_compute in H.
  discriminate.
Qed.

(** C6, amended. In a state whose status is not ongoing [is_game_over]
    holds, which is what callers are to check; the engine does not look at
    the status. A placement is rejected, state unaltered, when no piece is
    pending, as is the case after the placement that ended the game. A
    selection is rejected, state unaltered, when the id is not in the pool
    (so always once the pool is empty) or a piece is pending, and is
    accepted otherwise. *)
Theorem terminal_state_moves (gs : GameState) :
  board_wf (board gs) → game_status gs ≠ ONGOING →
  is_game_over gs = true ∧
  (selected_piece gs = None →
   ∀ row col, make_move gs row col = (Ret false, gs)) ∧
  (∀ piece_id,
     piece_id ∉ available_pieces gs ∨ selected_piece gs ≠ None →
     select_piece_for_opponent gs piece_id = (Ret false, gs)) ∧
  (∀ piece_id,
     selection_legal gs piece_id →
     (select_piece_for_opponent gs piece_id).1 = Ret true).
Proof.
  intros Hwf Hstatus. split_and!.
  - unfold is_game_over. apply bool_decide_eq_true.
    destruct (game_status gs); [done | |]; set_solver.
  - intros Hsel row col. apply make_move_rejected; [done|].
    intros (_ & _ & _ & [p Hp]). congruence.
  - intros piece_id H. apply select_piece_for_opponent_refused.
    intros (_ & ? & ?). by destruct H.
  - intros piece_id H. by rewrite select_piece_for_opponent_accepted.
Qed.

Lemma terminal_state_moves_witness :
  is_game_over finished_game = true ∧
  (selected_piece finished_game = None →
   ∀ row col, make_move finished_game row col = (Ret false, finished_game)) ∧
  (∀ piece_id,
     piece_id ∉ available_pieces finished_game ∨
     selected_piece finished_game ≠ None →
     select_piece_for_opponent finished_game piece_id
     = (Ret false, finished_game)) ∧
  (∀ piece_id,
     selection_legal finished_game piece_id →
     (select_piece_for_opponent finished_game piece_id).1 = Ret true).
Proof.
  apply (terminal_state_moves finished_game).
  - exact finished_game_wf.
  - discriminate.
Defined.

(** ** The piece partition *)

Lemma partition_fresh gid start : partition_ok (new_game gid start).
Proof.
  unfold partition_ok. cbn.
  change (placed_ids _) with (∅ : gset Z). unfold selected_ids. cbn.
  set_solver.
Qed.

Lemma partition_reset (gs : GameState) : partition_ok (reset_game gs).2.
Proof. apply (partition_fresh (game_id gs) PLAYER1). Qed.

Lemma partition_select (gs : GameState) (piece_id : Z) :
  partition_ok gs → partition_ok (select_piece_for_opponent gs piece_id).2.
Proof.
  intros Hok.
  destruct (decide (selection_legal gs piece_id)) as [Hlegal|Hillegal];
    [|by rewrite select_piece_for_opponent_refused].
  rewrite select_piece_for_opponent_accepted by done.
  assert (id (piece piece_id) = piece_id) as Hid by reflexivity.
  destruct Hlegal as (_ & Hpool & Hsel).
  destruct Hok as (Hpp & _ & _ & Hall). unfold partition_ok, selected_ids in *.
  rewrite Hsel in Hall.
  cbn [snd available_pieces board selected_piece]. rewrite Hid.
  split_and!.
  - intros k [Hk _]%elem_of_difference. by apply Hpp.
  - intros k [_ Hk]%elem_of_difference. done.
  - intros k Hk ->%elem_of_singleton. by apply (Hpp piece_id).
  - rewrite <- Hall. apply set_eq. intros k.
    rewrite !elem_of_union, elem_of_difference, elem_of_singleton.
    rewrite elem_of_empty. destruct (decide (k = piece_id)) as [->|]; tauto.
Qed.

(** A placement that returns keeps the partition: under the partition the
    pending id is not in the pool, so only rejections return. *)
Lemma partition_move_returned (gs gs' : GameState) (row col : Z) (r : bool) :
  board_wf (board gs) → partition_ok gs →
  make_move gs row col = (Ret r, gs') → r = false ∧ partition_ok gs'.
Proof.
  intros Hwf Hok Hmove.
  apply make_move_returned in Hmove
      as [[-> ->]|(_ & p & _ & Hsel & Hpool & _)]; [done | | done].
  destruct Hok as (_ & H2 & _). unfold selected_ids in H2.
  rewrite Hsel in H2. set_solver.
Qed.

(** C7 (the code departs from it). The state the object is left in by the
    placement at (0,0), after player1 handed piece 0 to player2 in a fresh
    game, is reachable by the engine operations; the partition held before
    that placement, and does not hold after it: piece 0 is at once on the
    board and pending. *)
Theorem partition_broken_by_placement :
  reachable "quarto_game_001" PLAYER1 (make_move after_selection 0 0).2 ∧
  partition_ok after_selection ∧
  (make_move after_selection 0 0).1 = Raise (KeyError 0) ∧
  placed_ids (board (make_move after_selection 0 0).2) = {[0]} ∧
  selected_ids (make_move after_selection 0 0).2 = {[0]} ∧
  ¬ partition_ok (make_move after_selection 0 0).2.
Proof.
  assert (Hplaced :
    placed_ids (board (make_move after_selection 0 0).2) = {[0]})
    by (vm_compute; reflexivity).
  assert (Hpending : selected_ids (make_move after_selection 0 0).2 = {[0]})
    by (vm_compute; reflexivity).
  split_and!; try done.
  - eapply rtc_l; [apply (step_select _ 0)|].
    eapply rtc_l; [apply (step_move _ 0 0)|]. apply rtc_refl.
  - apply partition_select, partition_fresh.
  - intros (_ & _ & Hdisj & _). rewrite Hplaced, Hpending in Hdisj.
    set_solver.
Qed.

(** ** Reset *)

(** C9 as stated fails: a game created with player2 as its starting player
    is reset to player1. *)
Lemma reset_game_ignores_starting_player :
  current_player (new_game "quarto_game_001" PLAYER2) = PLAYER2 ∧
  current_player (reset_game (new_game "quarto_game_001" PLAYER2)).2
  = PLAYER1 ∧
  current_player (reset_game (new_game "quarto_game_001" PLAYER2)).2
  ≠ current_player (new_game "quarto_game_001" PLAYER2).
Proof. split_and!; [reflexivity | reflexivity | discriminate]. Qed.

(** C9, amended. Whatever the state, [reset_game] returns and leaves the
    state of a new game of the same id started by player1: every cell
    empty, the pool exactly {0..15}, no piece pending, status ongoing, no
    winner, turn count 0, and player1 to play, whichever player the game
    was created with. *)
Theorem reset_game_spec (gs : GameState) :
  reset_game gs = (Ret tt, new_game (game_id gs) PLAYER1) ∧
  board (reset_game gs).2 =
    [[None; None; None; None]; [None; None; None; None];
     [None; None; None; None]; [None; None; None; None]] ∧
  (∀ k, k ∈ available_pieces (reset_game gs).2 ↔ 0 ≤ k ≤ 15) ∧
  selected_piece (reset_game gs).2 = None ∧
  game_status (reset_game gs).2 = ONGOING ∧
  winner (reset_game gs).2 = None ∧
  turn_count (reset_game gs).2 = 0 ∧
  current_player (reset_game gs).2 = PLAYER1.
Proof.
  split_and!; try reflexivity.
  intros k.
  change (available_pieces (reset_game gs).2)
    with (list_to_set (range 16) : gset Z).
  rewrite elem_of_list_to_set, elem_of_range. lia.
Qed.

(** * Further properties of the game state *)

(** X1. The string form of a piece determines its four attributes and
    nothing else: two pieces print alike exactly when they agree on tall,
    square, light and solid, whatever their ids. *)
Theorem str_determines_attributes (p q : QuartoPiece) :
  __str__ p = __str__ q ↔ attrs_of p = attrs_of q.
Proof.
  destruct p as [i [] [] [] []], q as [j [] [] [] []]; cbn;
    split; intros H; first [reflexivity | discriminate H].
Qed.

Lemma getitem_nonneg {A} (l : list A) (i : Z) :
  0 ≤ i →
  getitem l i = match l !! Z.to_nat i with
                | Some x => Ret x
                | None => Raise IndexError
                end.
Proof.
  intros Hi. unfold getitem.
  replace (i <? 0) with false by lia. by replace (i <? 0) with false by lia.
Qed.

Lemma board_get_nonneg (b : Board) (row col : Z) :
  0 ≤ row → 0 ≤ col →
  board_get b row col = match cell b (Z.to_nat row, Z.to_nat col) with
                        | Some c => Ret c
                        | None => Raise IndexError
                        end.
Proof.
  intros Hr Hc. unfold board_get, cell. rewrite getitem_nonneg by done. cbn.
  destruct (b !! Z.to_nat row) as [r|]; cbn; [|done].
  by rewrite getitem_nonneg.
Qed.

(** X2. Whatever the shape of the board, [get_piece_at] returns [None] for
    a row or column outside [0,3]; inside, it returns the content of the
    cell when the board has one there and raises [IndexError] when the
    board is too short. *)
Theorem get_piece_at_cases (self : GameState) (row col : Z) :
  get_piece_at self row col =
  if bool_decide (0 ≤ row < 4 ∧ 0 ≤ col < 4) then
    match cell (board self) (Z.to_nat row, Z.to_nat col) with
    | Some c => Ret c
    | None => Raise IndexError
    end
  else Ret None.
Proof.
  unfold get_piece_at, in_bounds. case_bool_decide as H.
  - replace ((0 <=? row) && (row <? 4) && ((0 <=? col) && (col <? 4)))
      with true by lia.
    apply board_get_nonneg; lia.
  - by replace ((0 <=? row) && (row <? 4) && ((0 <=? col) && (col <? 4)))
      with false by lia.
Qed.

(** * Further properties of win detection *)

Lemma mapM_getattr_None {A} (f : QuartoPiece → A)
    (cs : list (option QuartoPiece)) :
  None ∈ cs → mapM (getattr f) cs = Raise AttributeError.
Proof.
  induction cs as [|[p|] cs IH]; intros Hin.
  - by apply elem_of_nil in Hin.
  - apply elem_of_cons in Hin as [|Hin]; [done|].
    cbn. cbn in IH. by rewrite IH.
  - reflexivity.
Qed.

(** X3. [check_line_for_shared_attribute] answers [False] for any list
    that does not have exactly four entries, even one of identical pieces;
    on four pieces it answers whether they agree on one of the four
    attributes; on four entries one of which is [None] it raises
    [AttributeError], which is why its callers test for empty cells
    first. *)
Theorem check_line_for_shared_attribute_cases
    (cs : list (option QuartoPiece)) :
  (length cs ≠ 4%nat → check_line_for_shared_attribute cs = Ret false) ∧
  (length cs = 4%nat → None ∈ cs →
   check_line_for_shared_attribute cs = Raise AttributeError) ∧
  (length cs = 4%nat → ∀ ps, cs = Some <$> ps →
   ∃ w, check_line_for_shared_attribute cs = Ret w ∧
        (w = true ↔ unanimous tall ps ∨ unanimous square ps ∨
                    unanimous light ps ∨ unanimous solid ps)).
Proof.
  unfold check_line_for_shared_attribute. split_and!.
  - intros Hlen. by rewrite (proj2 (Nat.eqb_neq _ _) Hlen).
  - intros Hlen Hnone. rewrite Hlen. cbn [Nat.eqb negb].
    unfold attributes. cbn [any_shared].
    rewrite (mapM_getattr_None tall) by done. reflexivity.
  - intros Hlen ps ->. rewrite Hlen. cbn [Nat.eqb negb].
    rewrite any_shared_pieces. eexists; split; [reflexivity|].
    apply shares_spec. intros ->. discriminate Hlen.
Qed.

Lemma unanimous_Permutation (f : QuartoPiece → bool)
    (ps qs : list QuartoPiece) :
  ps ≡ₚ qs → unanimous f ps → unanimous f qs.
Proof.
  intros Hperm H p q Hp Hq. apply H; by rewrite Hperm.
Qed.

Lemma shares_Permutation (ps qs : list QuartoPiece) :
  ps ≡ₚ qs → shares ps = shares qs.
Proof.
  intros Hperm. destruct ps as [|p ps].
  { by apply Permutation_nil_l in Hperm as ->. }
  assert (qs ≠ []) as Hqs.
  { intros ->. by apply Permutation_nil_r in Hperm. }
  apply eq_true_iff_eq.
  rewrite !shares_spec by done.
  assert (∀ f, unanimous f (p :: ps) ↔ unanimous f qs) as Hiff.
  { intros f. split; apply unanimous_Permutation; [done | by symmetry]. }
  by rewrite !Hiff.
Qed.

(** X4. Whether four pieces share an attribute does not depend on the order
    in which the line lists them. *)
Theorem check_line_for_shared_attribute_Permutation
    (ps qs : list QuartoPiece) :
  ps ≡ₚ qs →
  check_line_for_shared_attribute (Some <$> ps)
  = check_line_for_shared_attribute (Some <$> qs).
Proof.
  intros Hperm. unfold check_line_for_shared_attribute.
  rewrite !length_fmap, (Permutation_length Hperm).
  destruct (negb _); [done|].
  rewrite !any_shared_pieces. f_equal. by apply shares_Permutation.
Qed.

Lemma check_line_for_shared_attribute_Permutation_witness :
  check_line_for_shared_attribute
    (Some <$> [piece 0; piece 2; piece 4; piece 6])
  = check_line_for_shared_attribute
      (Some <$> [piece 6; piece 0; piece 4; piece 2]).
Proof.
  apply check_line_for_shared_attribute_Permutation.
  apply (Permutation_trans (l' := [piece 0; piece 6; piece 4; piece 2])).
  - apply perm_skip. apply (Permutation_trans
      (l' := [piece 6; piece 2; piece 4])).
    + apply (Permutation_trans (l' := [piece 2; piece 6; piece 4]));
        [apply perm_skip, perm_swap | apply perm_swap].
    + apply perm_skip, perm_swap.
  - apply perm_swap.
Defined.

Lemma returns_true (r : result bool) (b : bool) :
  returns r b = true → r = Ret b.
Proof.
  destruct r as [x|e]; cbn; [|discriminate].
  by intros ->%Bool.eqb_prop.
Qed.

Lemma ids_share_bit_all :
  forallb (λ a, forallb (λ b, forallb (λ c, forallb (λ d,
    returns (check_line_for_shared_attribute
               [Some (piece a); Some (piece b);
                Some (piece c); Some (piece d)])
            (ids_share_bit a b c d))
    (range 16)) (range 16)) (range 16)) (range 16) = true.
Proof. vm_compute. reflexivity. Qed.

(** X5. For ids in [0,15], the four pieces built from them share an
    attribute exactly when some bit is set in all four ids or clear in all
    four: the bitwise AND of the ids is not 0, or their bitwise OR is not
    15. *)
Theorem shared_attribute_bitwise (a b c d : Z) (pa pb pc pd : QuartoPiece) :
  create_piece_from_id a = Ret pa → create_piece_from_id b = Ret pb →
  create_piece_from_id c = Ret pc → create_piece_from_id d = Ret pd →
  check_line_for_shared_attribute [Some pa; Some pb; Some pc; Some pd]
  = Ret (negb (Z.land (Z.land a b) (Z.land c d) =? 0) ||
         negb (Z.lor (Z.lor a b) (Z.lor c d) =? 15)).
Proof.
  intros Ha Hb Hc Hd.
  assert (Hpiece : ∀ i p, create_piece_from_id i = Ret p →
                          p = piece i ∧ i ∈ range 16).
  { intros i p Hp. pose proof Hp as (Hi & _)%create_piece_from_id_inv.
    rewrite create_piece_from_id_ok in Hp by done.
    split; [by injection Hp as <- | apply elem_of_range; lia]. }
  apply Hpiece in Ha as [-> Ha], Hb as [-> Hb], Hc as [-> Hc], Hd as [-> Hd].
  pose proof ids_share_bit_all as Hall.
  rewrite forallb_forall in Hall.
  apply list_elem_of_In, Hall in Ha. rewrite forallb_forall in Ha.
  apply list_elem_of_In, Ha in Hb. rewrite forallb_forall in Hb.
  apply list_elem_of_In, Hb in Hc. rewrite forallb_forall in Hc.
  apply list_elem_of_In, Hc in Hd.
  by apply returns_true in Hd.
Qed.

Lemma shared_attribute_bitwise_witness :
  check_line_for_shared_attribute
    [Some (piece 0); Some (piece 2); Some (piece 4); Some (piece 6)]
  = Ret true.
Proof.
  apply (shared_attribute_bitwise 0 2 4 6); reflexivity.
Defined.

(** Win detection on the 4x4 board, in terms of the lines. *)
Lemma check_for_win_lines (gs : GameState) :
  board_wf (board gs) →
  ∃ w, check_for_win gs = Ret w ∧
       (w = true ↔ Exists (winning_line (board gs)) all_lines).
Proof.
  intros Hwf.
  destruct (board_wf_cells _ Hwf)
    as (a00&a01&a02&a03&a10&a11&a12&a13&a20&a21&a22&a23&a30&a31&a32&a33&Hb).
  rewrite (check_for_win_explicit _ _ _ _ _ _ _ _ _ _ _ _ _ _ _ _ _ Hb).
  eexists; split; [reflexivity|].
  rewrite Hb. symmetry. apply Exists_existsb, all_lines_contents.
Qed.

Lemma cell_write_cell_ne (b : Board) (r c : nat) (x : option QuartoPiece)
    (rc : nat * nat) :
  rc ≠ (r, c) → cell (write_cell b r c x) rc = cell b rc.
Proof.
  destruct rc as [r' c']. intros Hne. unfold cell, write_cell. cbn.
  destruct (decide (r' = r)) as [->|Hr].
  - rewrite list_lookup_alter_eq. destruct (b !! r) as [row|]; [|done]. cbn.
    apply list_lookup_insert_ne. congruence.
  - by rewrite list_lookup_alter_ne.
Qed.

(** Writing into an empty cell keeps every winning line. *)
Lemma winning_line_write_cell (b : Board) (r c : nat)
    (x : option QuartoPiece) (l : list (nat * nat)) :
  cell b (r, c) = Some None →
  winning_line b l → winning_line (write_cell b r c x) l.
Proof.
  intros Hempty (ps & Hocc & Hshared). exists ps. split; [|done].
  unfold occupied_by in *. rewrite <- Hocc.
  apply list_fmap_ext. intros i rc Hrc. apply cell_write_cell_ne.
  intros ->.
  apply (f_equal (.!! i)) in Hocc. rewrite !list_lookup_fmap, Hrc in Hocc.
  cbn in Hocc. rewrite Hempty in Hocc.
  destruct (ps !! i); discriminate.
Qed.

(** X6. A win is never undone by filling an empty cell: if the board has a
    winning line, it still has one after any piece is written into a cell
    that was empty. *)
Theorem check_for_win_write_cell
    (gs : GameState) (r c : nat) (x : option QuartoPiece) :
  board_wf (board gs) → cell (board gs) (r, c) = Some None →
  check_for_win gs = Ret true →
  check_for_win (set_board (write_cell (board gs) r c x) gs) = Ret true.
Proof.
  intros Hwf Hempty Hwin.
  destruct (check_for_win_lines gs Hwf) as (w & Hw & Hlines).
  assert (w = true) as -> by congruence.
  destruct (check_for_win_lines
              (set_board (write_cell (board gs) r c x) gs))
    as (w' & -> & Hlines'); [by apply write_cell_wf|].
  f_equal. apply Hlines'. cbn [board set_board].
  eapply Exists_impl; [by apply Hlines|].
  intros l. by apply winning_line_write_cell.
Qed.

Lemma check_for_win_write_cell_witness :
  check_for_win
    (set_board (write_cell (board finished_game) 1 1 (Some (piece 15)))
       finished_game) = Ret true.
Proof.
  apply check_for_win_write_cell.
  - exact finished_game_wf.
  - reflexivity.
  - reflexivity.
Defined.

(** ** The winning line *)

(** [diagonal_line_then] on a line of four cells. *)
Lemma diagonal_line_guard (cs : list (option QuartoPiece))
    (line : list (Z * Z)) (k : result (option (list (Z * Z)))) :
  length cs = 4%nat →
  diagonal_line_then cs line k
  = if line_check cs then Ret (Some line) else k.
Proof.
  intros Hlen. unfold line_check, diagonal_line_then.
  destruct (line_contents cs) as [[ps ->]|(_ & H2 & H3)].
  - destruct (line_contents_pieces ps) as [_ ->].
    rewrite pieces_of_pieces. unfold check_line_for_shared_attribute.
    rewrite Hlen. cbn [Nat.eqb negb]. rewrite any_shared_pieces. reflexivity.
  - by rewrite H2, H3.
Qed.

Lemma get_winning_line_explicit
    (a00 a01 a02 a03 a10 a11 a12 a13
     a20 a21 a22 a23 a30 a31 a32 a33 : option QuartoPiece)
    (gs : GameState) :
  board gs = [[a00; a01; a02; a03]; [a10; a11; a12; a13];
              [a20; a21; a22; a23]; [a30; a31; a32; a33]] →
  get_winning_line gs =
  Ret (line_coords <$>
       first_winning all_lines
         [[a00; a01; a02; a03]; [a10; a11; a12; a13];
          [a20; a21; a22; a23]; [a30; a31; a32; a33];
          [a00; a10; a20; a30]; [a01; a11; a21; a31];
          [a02; a12; a22; a32]; [a03; a13; a23; a33];
          [a00; a11; a22; a33]; [a03; a12; a21; a30]]).
Proof.
  intros Hb.
  destruct (check_row_win_explicit _ _ _ _ _ _ _ _ _ _ _ _ _ _ _ _ _ Hb)
    as (R0 & R1 & R2 & R3).
  destruct (check_column_win_explicit _ _ _ _ _ _ _ _ _ _ _ _ _ _ _ _ _ Hb)
    as (C0 & C1 & C2 & C3).
  unfold get_winning_line. change (range 4) with [0; 1; 2; 3].
  cbn [first_line]. rewrite R0, R1, R2, R3, C0, C1, C2, C3, Hb.
  set (b := [[a00; a01; a02; a03]; _; _; _]).
  assert (mapM (λ i, board_get b i i) [0; 1; 2; 3]
          = Ret [a00; a11; a22; a33]) as -> by reflexivity.
  assert (mapM (λ i, board_get b i (3 - i)) [0; 1; 2; 3]
          = Ret [a03; a12; a21; a30]) as -> by reflexivity.
  cbn [mbind result_bind]. rewrite !diagonal_line_guard by reflexivity.
  let ls := eval vm_compute in all_lines in change all_lines with ls.
  cbn [first_winning].
  repeat (destruct (line_check _); [reflexivity|]). reflexivity.
Qed.

(** [first_winning] finds the first line that wins, given what each line
    holds. *)
Lemma first_winning_spec (W : list (nat * nat) → Prop)
    (ls : list (list (nat * nat)))
    (css : list (list (option QuartoPiece))) :
  Forall2 (λ l cs, W l ↔ line_check cs = true) ls css →
  match first_winning ls css with
  | None => ∀ l, l ∈ ls → ¬ W l
  | Some l =>
      ∃ i, ls !! i = Some l ∧ W l ∧
           ∀ j l', (j < i)%nat → ls !! j = Some l' → ¬ W l'
  end.
Proof.
  induction 1 as [|l cs ls css Hl _ IH]; cbn.
  - intros l Hin. by apply elem_of_nil in Hin.
  - destruct (line_check cs) eqn:Hcs.
    + exists 0%nat. split_and!; [done | by apply Hl | lia].
    + assert (¬ W l) as Hnot by (rewrite Hl; congruence).
      destruct (first_winning ls css) as [l1|].
      * destruct IH as (i & Hi & Hw & Hbefore). exists (S i).
        split_and!; [done | done |].
        intros [|j] l' Hj Hl'; cbn in Hl'; [by simplify_eq|].
        apply (Hbefore j); [lia | done].
      * intros l' [->|Hin]%elem_of_cons; [done | by apply IH].
Qed.

(** X7. On the 4x4 board [get_winning_line] returns the coordinates of the
    first winning line in the order rows 0-3, columns 0-3, main diagonal,
    anti-diagonal: the line it returns wins and no line before it does; it
    returns [None] exactly when no line wins. *)
Theorem get_winning_line_first (gs : GameState) :
  board_wf (board gs) →
  ∃ o, get_winning_line gs = Ret o ∧
       match o with
       | None => ∀ l, l ∈ all_lines → ¬ winning_line (board gs) l
       | Some coords =>
           ∃ i l, all_lines !! i = Some l ∧ coords = line_coords l ∧
                  winning_line (board gs) l ∧
                  ∀ j l', (j < i)%nat → all_lines !! j = Some l' →
                          ¬ winning_line (board gs) l'
       end.
Proof.
  intros Hwf.
  destruct (board_wf_cells _ Hwf)
    as (a00&a01&a02&a03&a10&a11&a12&a13&a20&a21&a22&a23&a30&a31&a32&a33&Hb).
  rewrite (get_winning_line_explicit _ _ _ _ _ _ _ _ _ _ _ _ _ _ _ _ _ Hb).
  eexists; split; [reflexivity|]. rewrite Hb.
  pose proof (first_winning_spec _ _ _
    (all_lines_contents a00 a01 a02 a03 a10 a11 a12 a13
                        a20 a21 a22 a23 a30 a31 a32 a33)) as Hfirst.
  destruct (first_winning _ _) as [l|]; cbn; [|done].
  destruct Hfirst as (i & Hi & Hw & Hbefore). by exists i, l.
Qed.

Lemma get_winning_line_first_witness :
  ∃ o, get_winning_line finished_game = Ret o ∧
       match o with
       | None => ∀ l, l ∈ all_lines → ¬ winning_line (board finished_game) l
       | Some coords =>
           ∃ i l, all_lines !! i = Some l ∧ coords = line_coords l ∧
                  winning_line (board finished_game) l ∧
                  ∀ j l', (j < i)%nat → all_lines !! j = Some l' →
                          ¬ winning_line (board finished_game) l'
       end.
Proof. apply (get_winning_line_first finished_game), finished_game_wf. Defined.

(** The spec's scenario 2. *)
Example get_winning_line_short_row :
  get_winning_line finished_game = Ret (Some [(0, 0); (0, 1); (0, 2); (0, 3)]).
Proof. reflexivity. Qed.

Lemma first_winning_existsb (ls : list (list (nat * nat)))
    (css : list (list (option QuartoPiece))) :
  length ls = length css →
  existsb line_check css = bool_decide (is_Some (first_winning ls css)).
Proof.
  revert css. induction ls as [|l ls IH]; intros [|cs css] Hlen;
    try discriminate Hlen; [done|]. cbn [existsb first_winning].
  destruct (line_check cs); cbn [orb].
  - symmetry. by apply bool_decide_eq_true_2.
  - apply IH. by injection Hlen.
Qed.

(** X8. On the 4x4 board [check_for_win] and [get_winning_line] agree:
    the first returns [True] exactly when the second returns a line. *)
Theorem check_for_win_get_winning_line (gs : GameState) :
  board_wf (board gs) →
  ∃ o, get_winning_line gs = Ret o ∧
       check_for_win gs = Ret (bool_decide (is_Some o)).
Proof.
  intros Hwf.
  destruct (board_wf_cells _ Hwf)
    as (a00&a01&a02&a03&a10&a11&a12&a13&a20&a21&a22&a23&a30&a31&a32&a33&Hb).
  rewrite (get_winning_line_explicit _ _ _ _ _ _ _ _ _ _ _ _ _ _ _ _ _ Hb).
  rewrite (check_for_win_explicit _ _ _ _ _ _ _ _ _ _ _ _ _ _ _ _ _ Hb).
  eexists; split; [reflexivity|]. f_equal.
  rewrite (first_winning_existsb all_lines) by reflexivity.
  apply bool_decide_ext. by rewrite fmap_is_Some.
Qed.

Lemma check_for_win_get_winning_line_witness :
  ∃ o, get_winning_line before_winning_move = Ret o ∧
       check_for_win before_winning_move = Ret (bool_decide (is_Some o)).
Proof.
  apply (check_for_win_get_winning_line before_winning_move).
  exact before_winning_move_wf.
Defined.

(** * Enumerating cells *)

Lemma for_each_ext {A S} (xs : list A) (body1 body2 : A → S → result S)
    (acc : S) :
  (∀ x acc', x ∈ xs → body1 x acc' = body2 x acc') →
  for_each xs body1 acc = for_each xs body2 acc.
Proof.
  revert acc. induction xs as [|x xs IH]; intros acc Hext; [done|].
  cbn. rewrite Hext by left. destruct (body2 x acc) as [acc'|e]; [|done].
  cbn. apply IH. intros y acc'' Hy. apply Hext. by right.
Qed.

(** A loop that appends the elements passing a test is a filter. *)
Lemma for_each_filter {A} (P : A → Prop) `{∀ x, Decision (P x)}
    (xs : list A) (body : A → list A → result (list A)) (acc : list A) :
  (∀ x acc', x ∈ xs →
     body x acc' = Ret (if decide (P x) then acc' ++ [x] else acc')) →
  for_each xs body acc = Ret (acc ++ filter P xs).
Proof.
  revert acc. induction xs as [|x xs IH]; intros acc Hbody.
  - cbn. by rewrite app_nil_r.
  - cbn [for_each]. rewrite Hbody by left. cbn [mbind result_bind].
    rewrite IH by (intros y acc' Hy; apply Hbody; by right).
    rewrite filter_cons. destruct (decide (P x)); [|done].
    by rewrite <- app_assoc.
Qed.

(** The same for a loop over rows whose body is a loop over columns. *)
Lemma for_each_concat {A B} (xs : list A)
    (f : A → list B) (body : A → list B → result (list B)) (acc : list B) :
  (∀ x acc', x ∈ xs → body x acc' = Ret (acc' ++ f x)) →
  for_each xs body acc = Ret (acc ++ concat (f <$> xs)).
Proof.
  intros Hbody. revert acc. induction xs as [|x xs IH]; intros acc.
  - cbn. by rewrite app_nil_r.
  - cbn [for_each]. rewrite Hbody by left. cbn [mbind result_bind].
    rewrite IH by (intros y acc' Hy; apply Hbody; by right).
    cbn [fmap list_fmap concat]. by rewrite <- app_assoc.
Qed.

Lemma filter_concat {A} (P : A → Prop) `{∀ x, Decision (P x)}
    (ls : list (list A)) :
  filter P (concat ls) = concat (filter P <$> ls).
Proof.
  induction ls as [|l ls IH]; [done|].
  cbn [fmap list_fmap concat]. by rewrite filter_app, IH.
Qed.

Lemma elem_of_range_4 (i : Z) : i ∈ range 4 ↔ 0 ≤ i < 4.
Proof. rewrite elem_of_range. lia. Qed.

Lemma elem_of_concat {A} (x : A) (ls : list (list A)) :
  x ∈ concat ls ↔ ∃ l, x ∈ l ∧ l ∈ ls.
Proof.
  induction ls as [|l ls IH]; cbn.
  - split; [by intros ?%elem_of_nil | by intros (? & _ & ?%elem_of_nil)].
  - rewrite elem_of_app, IH. split.
    + intros [?|(l' & ? & ?)]; [exists l | exists l'];
        (split; [done|]); by constructor.
    + intros (l' & ? & [->|?]%elem_of_cons); [by left | right; by exists l'].
Qed.

Lemma elem_of_grid_coords (rc : Z * Z) :
  rc ∈ grid_coords ↔ 0 ≤ rc.1 < 4 ∧ 0 ≤ rc.2 < 4.
Proof.
  unfold grid_coords. rewrite elem_of_concat. split.
  - intros (l & Hrc & (row & -> & Hrow)%list_elem_of_fmap).
    apply list_elem_of_fmap in Hrc as (col & -> & Hcol).
    apply elem_of_range_4 in Hrow, Hcol. done.
  - intros [Hrow Hcol]. destruct rc as [row col]. cbn [fst snd] in *.
    exists ((λ col, (row, col)) <$> range 4). split.
    + apply list_elem_of_fmap. exists col. by rewrite elem_of_range_4.
    + apply list_elem_of_fmap. exists row. by rewrite elem_of_range_4.
Qed.

Lemma get_empty_positions_filter (self : GameState) :
  board_wf (board self) →
  get_empty_positions self = Ret (filter (empty_at (board self)) grid_coords).
Proof.
  intros Hwf. unfold get_empty_positions, grid_coords.
  etrans; [apply (for_each_concat _
    (λ row, filter (empty_at (board self))
              ((λ col, (row, col)) <$> range 4)))|].
  2:{ cbn [app]. by rewrite filter_concat, <- list_fmap_compose. }
  intros row acc Hrow%elem_of_range_4.
  {
    transitivity (for_each ((λ col, (row, col)) <$> range 4)
      (λ rc acc', c ← board_get (board self) rc.1 rc.2;
                  if is_None c then Ret (acc' ++ [rc]) else Ret acc') acc).
    { generalize (range 4). intros cols. revert acc.
      induction cols as [|col cols IH]; intros acc; [done|]. cbn.
      destruct (board_get _ _ _) as [c|e]; [|done]. cbn.
      destruct (is_None c); apply IH. }
    apply for_each_filter.
    intros rc acc' (col & -> & Hcol%elem_of_range_4)%list_elem_of_fmap.
    cbn [fst snd].
    assert (in_bounds row = true) as Hr by (unfold in_bounds; lia).
    assert (in_bounds col = true) as Hc by (unfold in_bounds; lia).
    destruct (board_get_in_bounds _ row col Hwf Hr Hc) as (c & Hcell & ->).
    cbn [mbind result_bind].
    destruct c as [q|]; cbn [is_None].
    + rewrite decide_False; [done|].
      unfold empty_at. cbn [fst snd]. congruence.
    + by rewrite decide_True. }
Qed.

(** X9. On the 4x4 board [get_empty_positions] returns, row by row, the
    coordinates of the empty cells: a pair is in the list exactly when it
    is in bounds and its cell is empty, and no pair is listed twice. *)
Theorem get_empty_positions_spec (self : GameState) :
  board_wf (board self) →
  ∃ l, get_empty_positions self = Ret l ∧
       l = filter (empty_at (board self)) grid_coords ∧
       NoDup l ∧
       ∀ row col, (row, col) ∈ l ↔
                  0 ≤ row < 4 ∧ 0 ≤ col < 4 ∧
                  cell (board self) (Z.to_nat row, Z.to_nat col) = Some None.
Proof.
  intros Hwf. rewrite get_empty_positions_filter by done.
  eexists; split_and!; [reflexivity | reflexivity | |].
  - apply NoDup_filter. by apply (bool_decide_unpack _).
  - intros row col. rewrite list_elem_of_filter, elem_of_grid_coords.
    unfold empty_at. cbn. tauto.
Qed.

Lemma get_empty_positions_spec_witness :
  ∃ l, get_empty_positions before_winning_move = Ret l ∧
       l = filter (empty_at (board before_winning_move)) grid_coords ∧
       NoDup l ∧
       ∀ row col, (row, col) ∈ l ↔
                  0 ≤ row < 4 ∧ 0 ≤ col < 4 ∧
                  cell (board before_winning_move)
                    (Z.to_nat row, Z.to_nat col) = Some None.
Proof.
  apply (get_empty_positions_spec before_winning_move).
  exact before_winning_move_wf.
Defined.

Lemma get_valid_placements_filter (gs : GameState) :
  board_wf (board gs) →
  get_valid_placements gs =
  match selected_piece gs with
  | Some _ => Ret (filter (empty_at (board gs)) grid_coords)
  | None => Ret []
  end.
Proof.
  intros Hwf. unfold get_valid_placements.
  destruct (selected_piece gs) as [p|] eqn:Hsel; [|done]. cbn [is_None].
  rewrite <- get_empty_positions_filter by done. unfold get_empty_positions.
  apply for_each_ext. intros row acc Hrow%elem_of_range_4.
  apply for_each_ext. intros col acc' Hcol%elem_of_range_4.
  rewrite <- Hsel, is_valid_placement_spec by done.
  assert (in_bounds row = true) as Hr by (unfold in_bounds; lia).
  assert (in_bounds col = true) as Hc by (unfold in_bounds; lia).
  destruct (board_get_in_bounds _ row col Hwf Hr Hc) as (c & Hcell & ->).
  cbn [mbind result_bind]. case_bool_decide as Hlegal.
  - destruct Hlegal as (_ & _ & Hempty & _).
    assert (c = None) as -> by congruence. done.
  - destruct c as [q|]; [done|]. exfalso. apply Hlegal.
    unfold placement_legal. rewrite Hsel. split_and!; done || lia.
Qed.

(** X10. On the 4x4 board [get_valid_placements] returns the empty list
    when no piece is pending, and otherwise exactly what
    [get_empty_positions] returns: every empty cell, row by row. *)
Theorem get_valid_placements_spec (gs : GameState) :
  board_wf (board gs) →
  (selected_piece gs = None → get_valid_placements gs = Ret []) ∧
  (selected_piece gs ≠ None →
   get_valid_placements gs = get_empty_positions gs).
Proof.
  intros Hwf. rewrite get_valid_placements_filter by done.
  rewrite get_empty_positions_filter by done.
  by destruct (selected_piece gs).
Qed.

Lemma get_valid_placements_spec_witness :
  get_valid_placements before_winning_move
  = get_empty_positions before_winning_move.
Proof.
  apply (get_valid_placements_spec before_winning_move).
  - exact before_winning_move_wf.
  - discriminate.
Defined.

(** A legal placement is never answered with [False]. *)
Lemma make_move_legal_not_rejected (gs : GameState) (row col : Z) :
  board_wf (board gs) → placement_legal gs row col →
  (make_move gs row col).1 ≠ Ret false.
Proof.
  intros Hwf Hlegal. rewrite make_move_cases by done.
  rewrite bool_decide_eq_true_2 by done.
  destruct Hlegal as (_ & _ & _ & [p ->]). cbn zeta.
  case_decide; [|done].
  by destruct (update_game_status _) as [[[]|?] ?].
Qed.

(** X11. On the 4x4 board the positions [get_valid_placements] lists are
    exactly those where [make_move] does not answer [False]. *)
Theorem get_valid_placements_make_move (gs : GameState) :
  board_wf (board gs) →
  ∃ l, get_valid_placements gs = Ret l ∧
       ∀ row col, (row, col) ∈ l ↔ (make_move gs row col).1 ≠ Ret false.
Proof.
  intros Hwf. rewrite get_valid_placements_filter by done.
  assert (Hlegal : ∀ row col,
    placement_legal gs row col ↔ (make_move gs row col).1 ≠ Ret false).
  { intros row col. split; [by apply make_move_legal_not_rejected|].
    intros Hmove. destruct (decide (placement_legal gs row col)); [done|].
    by rewrite make_move_rejected in Hmove. }
  destruct (selected_piece gs) as [p|] eqn:Hsel;
    (eexists; split; [reflexivity|]); intros row col; rewrite <- Hlegal.
  - rewrite list_elem_of_filter, elem_of_grid_coords.
    unfold placement_legal, empty_at. rewrite Hsel. cbn [fst snd].
    split; [intros (? & ? & ?) | intros (? & ? & ? & _)]; done.
  - split; [by intros ?%elem_of_nil|].
    intros (_ & _ & _ & [? ?]). congruence.
Qed.

Lemma get_valid_placements_make_move_witness :
  ∃ l, get_valid_placements before_winning_move = Ret l ∧
       ∀ row col, (row, col) ∈ l ↔
                  (make_move before_winning_move row col).1 ≠ Ret false.
Proof.
  apply (get_valid_placements_make_move before_winning_move).
  exact before_winning_move_wf.
Defined.

(** * Placing through the state object *)

Lemma place_piece_cases (gs : GameState) (row col : Z) (p : QuartoPiece) :
  board_wf (board gs) →
  place_piece gs row col p =
  if bool_decide (place_piece_ok gs row col p)
  then (Ret true, placed p row col gs)
  else (Ret false, gs).
Proof.
  intros Hwf. unfold place_piece.
  destruct (in_bounds row) eqn:Hr; cycle 1.
  { apply in_bounds_false in Hr. rewrite (bool_decide_eq_false_2 (place_piece_ok _ _ _ _)); [done|].
    intros (? & _); lia. }
  destruct (in_bounds col) eqn:Hc; cycle 1.
  { apply in_bounds_false in Hc. rewrite (bool_decide_eq_false_2 (place_piece_ok _ _ _ _)); [done|].
    intros (? & ? & _); lia. }
  destruct (board_get_in_bounds _ row col Hwf Hr Hc) as (c & Hcell & ->).
  apply in_bounds_cases in Hr, Hc. cbn [negb andb mbind result_bind].
  destruct c as [q|]; cbn [is_None andb].
  { rewrite (bool_decide_eq_false_2 (place_piece_ok _ _ _ _)); [done|].
    intros (_ & _ & ? & _); congruence. }
  case_bool_decide as Hpool; cycle 1.
  { rewrite (bool_decide_eq_false_2 (place_piece_ok _ _ _ _)); [done|]. by intros (_ & _ & _ & ?). }
  rewrite (bool_decide_eq_true_2 (place_piece_ok _ _ _ _))
    by (unfold place_piece_ok; split_and!; done || lia).
  rewrite board_set_in_bounds by (done || lia).
  cbn [set_board available_pieces]. unfold set_remove, placed.
  rewrite decide_True by done. by destruct gs.
Qed.

(** X12. On the 4x4 board [place_piece] succeeds exactly when the cell is
    in bounds and empty and the id of the piece is in the pool, whether or
    not that piece is the pending one. It then writes the cell, takes the
    id out of the pool, clears the pending piece and adds one to the turn
    count, leaving player, status and winner alone; otherwise it returns
    [False] and changes nothing. *)
Theorem place_piece_spec (gs : GameState) (row col : Z) (p : QuartoPiece) :
  board_wf (board gs) →
  (place_piece_ok gs row col p →
   place_piece gs row col p =
   (Ret true,
    {| game_id := game_id gs;
       current_player := current_player gs;
       board := write_cell (board gs) (Z.to_nat row) (Z.to_nat col) (Some p);
       available_pieces := available_pieces gs ∖ {[id p]};
       selected_piece := None;
       game_status := game_status gs;
       winner := winner gs;
       turn_count := turn_count gs + 1 |})) ∧
  (¬ place_piece_ok gs row col p →
   place_piece gs row col p = (Ret false, gs)).
Proof.
  intros Hwf. rewrite place_piece_cases by done. split; intros H.
  - by rewrite bool_decide_eq_true_2.
  - by rewrite bool_decide_eq_false_2.
Qed.

Lemma place_piece_spec_witness :
  place_piece before_winning_move 0 3 (piece 7) =
  (Ret true,
   {| game_id := "quarto_game_001"; current_player := PLAYER2;
      board := write_cell (board before_winning_move) 0 3 (Some (piece 7));
      available_pieces := available_pieces before_winning_move ∖ {[7]};
      selected_piece := None; game_status := ONGOING;
      winner := None; turn_count := 3 + 1 |}).
Proof.
  apply (place_piece_spec before_winning_move 0 3 (piece 7)).
  - exact before_winning_move_wf.
  - split_and!; try lia; [reflexivity|]. by vm_compute.
Defined.

Lemma check_for_win_total (gs : GameState) :
  board_wf (board gs) → ∃ w, check_for_win gs = Ret w.
Proof.
  intros Hwf. destruct (check_for_win_lines gs Hwf) as (w & Hw & _). eauto.
Qed.

Lemma update_game_status_returns (gs : GameState) :
  board_wf (board gs) →
  ∃ st w, update_game_status gs = (Ret tt, with_status st w gs).
Proof.
  intros Hwf. rewrite update_game_status_cases.
  destruct (check_for_win_total gs Hwf) as ([|] & ->); [eauto|].
  case_bool_decide; eauto.
Qed.

(** X13. [make_move] is [place_piece] of the pending piece followed by
    [update_game_status]: on the 4x4 board, with a piece pending whose id
    is in the pool, it returns what [place_piece] returns, and after a
    successful [place_piece] leaves the state [update_game_status] makes
    of the placed one. *)
Theorem make_move_place_piece (gs : GameState) (row col : Z)
    (p : QuartoPiece) :
  board_wf (board gs) →
  selected_piece gs = Some p → id p ∈ available_pieces gs →
  make_move gs row col =
  match place_piece gs row col p with
  | (Ret true, gs1) => (Ret true, (update_game_status gs1).2)
  | outcome => outcome
  end.
Proof.
  intros Hwf Hsel Hpool.
  rewrite make_move_cases, place_piece_cases by done.
  assert (placement_legal gs row col ↔ place_piece_ok gs row col p) as Hiff.
  { unfold placement_legal, place_piece_ok. rewrite Hsel.
    split; intros (? & ? & ? & _); done. }
  rewrite (bool_decide_ext _ _ Hiff).
  case_bool_decide as Hok; [|done].
  rewrite Hsel. cbn zeta. rewrite decide_True by done.
  destruct (update_game_status_returns (placed p row col gs))
    as (st & w & ->); [|done].
  by apply write_cell_wf.
Qed.

Lemma make_move_place_piece_witness :
  make_move before_winning_move 0 3 =
  match place_piece before_winning_move 0 3 (piece 6) with
  | (Ret true, gs1) => (Ret true, (update_game_status gs1).2)
  | outcome => outcome
  end.
Proof.
  apply (make_move_place_piece before_winning_move 0 3 (piece 6)).
  - exact before_winning_move_wf.
  - reflexivity.
  - by vm_compute.
Defined.

(** ** The partition under [place_piece] *)

Lemma placed_ids_app (b1 b2 : Board) :
  placed_ids (b1 ++ b2) = placed_ids b1 ∪ placed_ids b2.
Proof.
  unfold placed_ids.
  by rewrite concat_app, omap_app, fmap_app, list_to_set_app_L.
Qed.

Lemma placed_ids_cons (row : list (option QuartoPiece)) (b : Board) :
  placed_ids (row :: b) = placed_ids [row] ∪ placed_ids b.
Proof. apply (placed_ids_app [row] b). Qed.

Lemma omap_insert_None (row : list (option QuartoPiece)) (c : nat)
    (p : QuartoPiece) :
  row !! c = Some None →
  omap (λ x, x) (<[c := Some p]> row) ≡ₚ p :: omap (λ x, x) row.
Proof.
  revert c. induction row as [|x row IH]; intros [|c] Hc; try done.
  - cbn in Hc. by injection Hc as ->.
  - cbn in Hc. cbn [insert list_insert].
    change (omap (λ x, x) (x :: ?l))
      with (match x with Some q => q :: omap (λ x, x) l
                       | None => omap (λ x, x) l end).
    destruct x as [q|]; rewrite (IH c Hc); [apply perm_swap | done].
Qed.

Lemma placed_ids_row_insert (row : list (option QuartoPiece)) (c : nat)
    (p : QuartoPiece) :
  row !! c = Some None →
  placed_ids [<[c := Some p]> row] = {[id p]} ∪ placed_ids [row].
Proof.
  intros Hc. unfold placed_ids. cbn [concat]. rewrite !app_nil_r.
  rewrite <- list_to_set_cons, <- fmap_cons.
  apply list_to_set_perm_L, fmap_Permutation. by apply omap_insert_None.
Qed.

Lemma placed_ids_write_cell (b : Board) (r c : nat) (p : QuartoPiece) :
  cell b (r, c) = Some None →
  placed_ids (write_cell b r c (Some p)) = {[id p]} ∪ placed_ids b.
Proof.
  unfold cell, write_cell. cbn [fst snd].
  revert r. induction b as [|row b IH]; intros [|r] Hcell; try done.
  - cbn in Hcell. cbn [alter list_alter].
    rewrite (placed_ids_cons _ b), (placed_ids_cons row b).
    rewrite placed_ids_row_insert by done. by rewrite (assoc_L (∪)).
  - cbn in Hcell. cbn [alter list_alter].
    rewrite (placed_ids_cons row _), (placed_ids_cons row b).
    rewrite (IH r Hcell), !(assoc_L (∪)). f_equal. apply (comm_L (∪)).
Qed.

(** X14. With no piece pending, [place_piece] keeps the piece partition:
    if pool, placed ids and pending id partition {0..15} before the call,
    they do so after it, whether it placed the piece or refused. *)
Theorem place_piece_partition (gs : GameState) (row col : Z)
    (p : QuartoPiece) :
  board_wf (board gs) → partition_ok gs → selected_piece gs = None →
  partition_ok (place_piece gs row col p).2.
Proof.
  intros Hwf Hok Hsel. rewrite place_piece_cases by done.
  case_bool_decide as Hplace; [|done].
  destruct Hplace as (_ & _ & Hcell & Hpool).
  destruct Hok as (Hpp & _ & _ & Hall).
  unfold partition_ok, selected_ids in *. rewrite Hsel in Hall.
  cbn [snd placed board available_pieces selected_piece
       set_selected_piece set_turn_count set_available_pieces set_board].
  rewrite placed_ids_write_cell by done.
  split_and!.
  - intros k [Hk Hne]%elem_of_difference [?|Hk']%elem_of_union; [done|].
    by apply (Hpp k).
  - intros k _ ?%elem_of_empty. done.
  - intros k _ ?%elem_of_empty. done.
  - rewrite <- Hall. apply set_eq. intros k.
    rewrite !elem_of_union, elem_of_difference, elem_of_singleton.
    rewrite !elem_of_empty. destruct (decide (k = id p)) as [->|]; tauto.
Qed.

Lemma place_piece_partition_witness :
  partition_ok (place_piece fresh_game 1 2 (piece 5)).2.
Proof.
  apply (place_piece_partition fresh_game 1 2 (piece 5)).
  - apply new_game_wf.
  - apply partition_fresh.
  - reflexivity.
Defined.

(** * The terminal status *)

Lemma check_for_win_board_won (gs : GameState) :
  board_wf (board gs) →
  (check_for_win gs = Ret true ∧ board_won (board gs)) ∨
  (check_for_win gs = Ret false ∧ ¬ board_won (board gs)).
Proof.
  intros Hwf. unfold board_won. setoid_rewrite <- Exists_exists.
  destruct (check_for_win_lines gs Hwf) as ([|] & -> & Hw).
  - left. split; [done | by apply Hw].
  - right. split; [done|]. intros Hex%Hw. discriminate.
Qed.

(** X15. On the 4x4 board [update_game_status] returns and rewrites only
    the status and the winner: finished with the current player as winner
    when some line wins; draw with no winner when no line wins and the
    pool is empty; ongoing with no winner otherwise. A win takes
    precedence over an empty pool. *)
Theorem update_game_status_spec (gs : GameState) :
  board_wf (board gs) →
  ∃ st w, update_game_status gs = (Ret tt, with_status st w gs) ∧
    (board_won (board gs) →
     st = FINISHED ∧ w = Some (current_player gs)) ∧
    (¬ board_won (board gs) → available_pieces gs = ∅ →
     st = DRAW ∧ w = None) ∧
    (¬ board_won (board gs) → available_pieces gs ≠ ∅ →
     st = ONGOING ∧ w = None).
Proof.
  intros Hwf. rewrite update_game_status_cases.
  destruct (check_for_win_board_won gs Hwf) as [[-> Hwon]|[-> Hnot]].
  - eexists _, _. split_and!; done.
  - case_bool_decide as Hsize.
    + apply size_empty_iff, leibniz_equiv in Hsize.
      eexists _, _. split_and!; done.
    + eexists _, _. split_and!; try done.
      intros _ Hpool. rewrite Hpool, size_empty in Hsize. done.
Qed.

Lemma update_game_status_spec_witness :
  ∃ st w, update_game_status finished_game
          = (Ret tt, with_status st w finished_game) ∧
    (board_won (board finished_game) →
     st = FINISHED ∧ w = Some (current_player finished_game)) ∧
    (¬ board_won (board finished_game) →
     available_pieces finished_game = ∅ → st = DRAW ∧ w = None) ∧
    (¬ board_won (board finished_game) →
     available_pieces finished_game ≠ ∅ → st = ONGOING ∧ w = None).
Proof. apply (update_game_status_spec finished_game), finished_game_wf. Defined.

(** X16. [update_game_status] is idempotent: running it a second time
    gives the outcome and the state of the first run, on any board. *)
Theorem update_game_status_idempotent (gs : GameState) :
  update_game_status (update_game_status gs).2 = update_game_status gs.
Proof.
  rewrite (update_game_status_cases gs).
  destruct (check_for_win gs) as [[|]|e] eqn:Hwin.
  - cbn [snd]. rewrite update_game_status_cases.
    rewrite (check_for_win_board _ gs), Hwin by reflexivity.
    by destruct gs.
  - case_bool_decide as Hsize; cbn [snd];
      rewrite update_game_status_cases;
      rewrite (check_for_win_board _ gs), Hwin by reflexivity;
      change (available_pieces (with_status _ _ gs))
        with (available_pieces gs);
      [rewrite bool_decide_eq_true_2 by done
      |rewrite bool_decide_eq_false_2 by done];
      by destruct gs.
  - cbn [snd]. by rewrite update_game_status_cases, Hwin.
Qed.

(** * Invariants of the engine operations *)

(** What a placement call can do to the object, whatever its outcome: the
    board is as before or has the pending piece written into one empty
    cell; the player to move and the game id are untouched. *)
Lemma make_move_frame (gs : GameState) (row col : Z) :
  board_wf (board gs) →
  current_player (make_move gs row col).2 = current_player gs ∧
  (board (make_move gs row col).2 = board gs ∨
   ∃ p, cell (board gs) (Z.to_nat row, Z.to_nat col) = Some None ∧
        board (make_move gs row col).2
        = write_cell (board gs) (Z.to_nat row) (Z.to_nat col) (Some p)).
Proof.
  intros Hwf. rewrite make_move_cases by done.
  case_bool_decide as Hlegal; [|by split; [|left]].
  destruct Hlegal as (_ & _ & Hcell & [p Hp]). rewrite Hp. cbn zeta.
  case_decide.
  - destruct (update_game_status_returns (placed p row col gs))
      as (st & w & ->); [by apply write_cell_wf|].
    split; [done|]. right. by exists p.
  - split; [done|]. right. by exists p.
Qed.

Lemma select_piece_for_opponent_frame (gs : GameState) (piece_id : Z) :
  board (select_piece_for_opponent gs piece_id).2 = board gs ∧
  (current_player (select_piece_for_opponent gs piece_id).2
   = current_player gs ∨
   current_player (select_piece_for_opponent gs piece_id).2
   = next_player (current_player gs)).
Proof.
  destruct (decide (selection_legal gs piece_id)).
  - rewrite select_piece_for_opponent_accepted by done. split; [done|by right].
  - rewrite select_piece_for_opponent_refused by done. split; [done|by left].
Qed.

Lemma engine_step_inv (start : Player) (gs gs' : GameState) :
  engine_step gs gs' →
  board_wf (board gs) ∧ (start ≠ ROBOT → current_player gs ≠ ROBOT) →
  board_wf (board gs') ∧ (start ≠ ROBOT → current_player gs' ≠ ROBOT).
Proof.
  intros Hstep [Hwf Hplayer]. destruct Hstep as [gs pid|gs row col|gs].
  - destruct (select_piece_for_opponent_frame gs pid) as [-> [->| ->]].
    + done.
    + split; [done|]. intros _. by destruct (current_player gs).
  - destruct (make_move_frame gs row col Hwf) as [-> [-> |(p & _ & ->)]].
    + done.
    + split; [by apply write_cell_wf | done].
  - split; [apply (new_game_wf (game_id gs) PLAYER1) | done].
Qed.

Lemma reachable_inv (gid : string) (start : Player) (gs : GameState) :
  reachable gid start gs →
  board_wf (board gs) ∧ (start ≠ ROBOT → current_player gs ≠ ROBOT).
Proof.
  unfold reachable. revert gs. apply rtc_ind_r.
  - split; [apply new_game_wf | done].
  - intros gs1 gs2 _ Hstep IH. by eapply engine_step_inv.
Qed.

(** X17. The engine never hands the turn to the robot: in every state
    reached from a new game that a human player starts, by any calls of
    selection, placement and reset whatever their outcome, the player to
    move is player1 or player2. *)
Theorem reachable_never_robot (gid : string) (start : Player)
    (gs : GameState) :
  start ≠ ROBOT → reachable gid start gs → current_player gs ≠ ROBOT.
Proof. intros Hstart Hreach. by apply (reachable_inv gid start gs). Qed.

Lemma after_selection_reachable :
  reachable "quarto_game_001" PLAYER1 after_selection.
Proof. eapply rtc_l; [apply (step_select _ 0) | apply rtc_refl]. Qed.

Lemma reachable_never_robot_witness : current_player after_selection ≠ ROBOT.
Proof.
  apply (reachable_never_robot "quarto_game_001" PLAYER1).
  - discriminate.
  - exact after_selection_reachable.
Defined.

(** X18. The engine operations keep the shape of the board: every state
    reached from a new game, by any calls of selection, placement and
    reset whatever their outcome, has a 4x4 board. *)
Theorem reachable_board_wf (gid : string) (start : Player) (gs : GameState) :
  reachable gid start gs → board_wf (board gs).
Proof. intros Hreach. by apply (reachable_inv gid start gs). Qed.

Lemma reachable_board_wf_witness :
  board_wf (board (make_move after_selection 0 0).2).
Proof.
  apply (reachable_board_wf "quarto_game_001" PLAYER1).
  eapply rtc_r; [exact after_selection_reachable | apply step_move].
Defined.

(** X19. Selection and placement never clear or overwrite an occupied
    cell: a piece on the 4x4 board before the call is in the same cell
    after it, whatever the call's arguments and outcome. *)
Theorem occupied_cell_kept (gs : GameState) (rc : nat * nat)
    (q : QuartoPiece) :
  board_wf (board gs) → cell (board gs) rc = Some (Some q) →
  (∀ row col, cell (board (make_move gs row col).2) rc = Some (Some q)) ∧
  (∀ piece_id,
     cell (board (select_piece_for_opponent gs piece_id).2) rc
     = Some (Some q)).
Proof.
  intros Hwf Hcell. split.
  - intros row col.
    destruct (make_move_frame gs row col Hwf) as [_ [-> |(p & Hempty & ->)]];
      [done|].
    rewrite cell_write_cell_ne; [done|]. intros ->. congruence.
  - intros pid.
    by destruct (select_piece_for_opponent_frame gs pid) as [-> _].
Qed.

Lemma occupied_cell_kept_witness :
  (∀ row col,
     cell (board (make_move before_winning_move row col).2) (0%nat, 1%nat)
     = Some (Some (piece 2))) ∧
  (∀ piece_id,
     cell (board (select_piece_for_opponent before_winning_move piece_id).2)
       (0%nat, 1%nat) = Some (Some (piece 2))).
Proof.
  apply (occupied_cell_kept before_winning_move (0%nat, 1%nat) (piece 2)).
  - exact before_winning_move_wf.
  - reflexivity.
Defined.

(** * Outcomes of a placement *)

(** X20. On the 4x4 board [make_move] has exactly three outcomes. It
    returns [False] when the placement is not legal (out of bounds,
    occupied cell, or nothing pending); it returns [True] when the
    placement is legal and the pending id is still in the pool; it raises
    [KeyError] on the pending id when the placement is legal and the id is
    not in the pool. It raises nothing else. *)
Theorem make_move_outcomes (gs : GameState) (row col : Z) :
  board_wf (board gs) →
  ((make_move gs row col).1 = Ret false ↔ ¬ placement_legal gs row col) ∧
  ((make_move gs row col).1 = Ret true ↔
   placement_legal gs row col ∧
   ∃ p, selected_piece gs = Some p ∧ id p ∈ available_pieces gs) ∧
  (∀ e, (make_move gs row col).1 = Raise e ↔
        placement_legal gs row col ∧
        ∃ p, selected_piece gs = Some p ∧
             (id p ∉ available_pieces gs) ∧ e = KeyError (id p)).
Proof.
  intros Hwf. rewrite make_move_cases by done.
  case_bool_decide as Hlegal; cycle 1.
  { cbn [fst]. split_and!; [done | |intros e]; split; try done;
      by intros [? _]. }
  pose proof Hlegal as (_ & _ & _ & [p Hp]). rewrite Hp. cbn zeta.
  case_decide as Hpool.
  - destruct (update_game_status_returns (placed p row col gs))
      as (st & w & ->); [by apply write_cell_wf|]. cbn [fst].
    split_and!; [done | |intros e]; split; try done.
    + intros _. split; [done|]. by exists p.
    + intros (_ & q & [= <-] & Hq & _). done.
  - cbn [fst]. split_and!; [done | |intros e]; split; try done.
    + intros (_ & q & [= <-] & Hq). done.
    + intros [= <-]. split; [done|]. by exists p.
    + intros (_ & q & [= <-] & _ & ->). done.
Qed.

Lemma make_move_outcomes_witness :
  ((make_move after_selection 0 0).1 = Ret false ↔
   ¬ placement_legal after_selection 0 0) ∧
  ((make_move after_selection 0 0).1 = Ret true ↔
   placement_legal after_selection 0 0 ∧
   ∃ p, selected_piece after_selection = Some p ∧
        id p ∈ available_pieces after_selection) ∧
  (∀ e, (make_move after_selection 0 0).1 = Raise e ↔
        placement_legal after_selection 0 0 ∧
        ∃ p, selected_piece after_selection = Some p ∧
             (id p ∉ available_pieces after_selection) ∧
             e = KeyError (id p)).
Proof. apply (make_move_outcomes after_selection 0 0), after_selection_wf. Defined.

(** X21. On the 4x4 board [is_valid_placement] accepts a piece exactly
    when the cell is in bounds and empty and the id of the piece is the id
    of the pending piece; it compares ids only, not attributes. Called
    with [None] for the piece, it raises [AttributeError] when the cell is
    in bounds and empty and a piece is pending, and returns [False]
    otherwise. *)
Theorem is_valid_placement_cases (gs : GameState) (row col : Z) :
  board_wf (board gs) →
  (∀ q, is_valid_placement gs row col (Some q) =
        Ret (bool_decide
               (0 ≤ row < 4 ∧ 0 ≤ col < 4 ∧
                cell (board gs) (Z.to_nat row, Z.to_nat col) = Some None ∧
                (id <$> selected_piece gs) = Some (id q)))) ∧
  is_valid_placement gs row col None =
  (if bool_decide (placement_legal gs row col) then Raise AttributeError
   else Ret false).
Proof.
  intros Hwf. unfold is_valid_placement.
  destruct (in_bounds row) eqn:Hr; cycle 1.
  { apply in_bounds_false in Hr. split; [intros q|];
      (rewrite bool_decide_eq_false_2; [done|]); intros (? & _); lia. }
  destruct (in_bounds col) eqn:Hc; cycle 1.
  { apply in_bounds_false in Hc. split; [intros q|];
      (rewrite bool_decide_eq_false_2; [done|]); intros (? & ? & _); lia. }
  destruct (board_get_in_bounds _ row col Hwf Hr Hc) as (c & Hcell & ->).
  apply in_bounds_cases in Hr, Hc. cbn [negb andb mbind result_bind].
  destruct c as [x|]; cbn [is_None negb].
  { split; [intros q|]; (rewrite bool_decide_eq_false_2; [done|]);
      intros (_ & _ & ? & _); congruence. }
  destruct (selected_piece gs) as [sel|] eqn:Hsel;
    cbn [getattr mbind result_bind].
  - split.
    + intros q. destruct (Z.eqb_spec (id q) (id sel)) as [Heq|Hne]; cbn.
      * rewrite bool_decide_eq_true_2; [done|].
        split_and!; try lia; [done|]. by rewrite Heq.
      * rewrite bool_decide_eq_false_2; [done|].
        intros (_ & _ & _ & [= ?]). congruence.
    + rewrite bool_decide_eq_true_2; [done|].
      unfold placement_legal. rewrite Hsel. split_and!; done || lia.
  - split.
    + intros q. rewrite bool_decide_eq_false_2; [done|].
      by intros (_ & _ & _ & ?).
    + rewrite bool_decide_eq_false_2; [done|].
      unfold placement_legal. rewrite Hsel.
      intros (_ & _ & _ & [? ?]). done.
Qed.

Lemma is_valid_placement_cases_witness :
  (∀ q, is_valid_placement before_winning_move 0 3 (Some q) =
        Ret (bool_decide
               (0 ≤ 0 < 4 ∧ 0 ≤ 3 < 4 ∧
                cell (board before_winning_move) (Z.to_nat 0, Z.to_nat 3)
                = Some None ∧
                (id <$> selected_piece before_winning_move)
                = Some (id q)))) ∧
  is_valid_placement before_winning_move 0 3 None =
  (if bool_decide (placement_legal before_winning_move 0 3)
   then Raise AttributeError else Ret false).
Proof.
  apply (is_valid_placement_cases before_winning_move 0 3).
  exact before_winning_move_wf.
Defined.

(** X22. After a selection has been accepted, every further selection is
    refused and changes nothing, whatever id it names, until the pending
    piece is consumed. *)
Theorem select_piece_for_opponent_twice (gs : GameState)
    (piece_id piece_id' : Z) :
  (select_piece_for_opponent gs piece_id).1 = Ret true →
  select_piece_for_opponent (select_piece_for_opponent gs piece_id).2
    piece_id'
  = (Ret false, (select_piece_for_opponent gs piece_id).2).
Proof.
  intros Hfirst.
  destruct (decide (selection_legal gs piece_id)) as [Hlegal|Hillegal].
  - rewrite (select_piece_for_opponent_accepted gs piece_id) by done.
    cbn [snd]. apply select_piece_for_opponent_refused.
    intros (_ & _ & Hsel). discriminate Hsel.
  - rewrite select_piece_for_opponent_refused in Hfirst by done.
    discriminate.
Qed.

Lemma select_piece_for_opponent_twice_witness :
  select_piece_for_opponent after_selection 5 = (Ret false, after_selection).
Proof.
  apply (select_piece_for_opponent_twice fresh_game 0 5). reflexivity.
Defined.

(** X23. A placement that succeeds on the 4x4 board leaves the pending
    piece in the cell, its id out of the pool, nothing pending, the turn
    count one higher and the same player to move; the status is finished
    with that player as winner when the new board has a winning line, draw
    when it has none and the pool is now empty, ongoing otherwise. *)
Theorem make_move_success (gs gs' : GameState) (row col : Z) :
  board_wf (board gs) →
  make_move gs row col = (Ret true, gs') →
  ∃ p st w,
    selected_piece gs = Some p ∧
    gs' = with_status st w (placed p row col gs) ∧
    cell (board gs') (Z.to_nat row, Z.to_nat col) = Some (Some p) ∧
    (board_won (board gs') → st = FINISHED ∧ w = Some (current_player gs)) ∧
    (¬ board_won (board gs') → available_pieces gs' = ∅ →
     st = DRAW ∧ w = None) ∧
    (¬ board_won (board gs') → available_pieces gs' ≠ ∅ →
     st = ONGOING ∧ w = None).
Proof.
  intros Hwf Hmove.
  apply make_move_returned in Hmove
      as [[? _]|(_ & p & Hlegal & Hsel & Hpool & Hstatus)];
    [discriminate | | done].
  assert (board_wf (board (placed p row col gs))) as Hwf'
    by by apply write_cell_wf.
  rewrite update_game_status_cases in Hstatus.
  destruct Hlegal as (_ & _ & Hcell & _).
  assert (cell (board (placed p row col gs)) (Z.to_nat row, Z.to_nat col)
          = Some (Some p)) as Hwritten.
  { cbn [board placed set_board set_selected_piece set_turn_count
         set_available_pieces].
    apply write_cell_lookup. by rewrite Hcell. }
  destruct (check_for_win_board_won _ Hwf') as [[Hwin Hwon]|[Hwin Hnot]];
    rewrite Hwin in Hstatus.
  - injection Hstatus as <-. eexists p, _, _. split_and!; done.
  - case_bool_decide as Hsize; injection Hstatus as <-;
      eexists p, _, _; (split_and!; try done).
    + apply size_empty_iff, leibniz_equiv in Hsize. intros _ Hne. done.
    + intros _ Hempty. cbn in Hempty. cbn in Hsize.
      rewrite Hempty, size_empty in Hsize. done.
Qed.

Lemma make_move_success_witness :
  ∃ p st w,
    selected_piece before_winning_move = Some p ∧
    (make_move before_winning_move 0 3).2
    = with_status st w (placed p 0 3 before_winning_move) ∧
    cell (board (make_move before_winning_move 0 3).2)
      (Z.to_nat 0, Z.to_nat 3) = Some (Some p) ∧
    (board_won (board (make_move before_winning_move 0 3).2) →
     st = FINISHED ∧ w = Some (current_player before_winning_move)) ∧
    (¬ board_won (board (make_move before_winning_move 0 3).2) →
     available_pieces (make_move before_winning_move 0 3).2 = ∅ →
     st = DRAW ∧ w = None) ∧
    (¬ board_won (board (make_move before_winning_move 0 3).2) →
     available_pieces (make_move before_winning_move 0 3).2 ≠ ∅ →
     st = ONGOING ∧ w = None).
Proof.
  apply (make_move_success before_winning_move _ 0 3).
  - exact before_winning_move_wf.
  - vm_compute. reflexivity.
Defined.

(** X24. The turn count goes up by one on a placement that returns
    [True] and is left alone by every other call: a placement that
    returns [False] or raises, and any selection. *)
Theorem turn_count_step (gs : GameState) :
  board_wf (board gs) →
  (∀ row col,
     turn_count (make_move gs row col).2 =
     match (make_move gs row col).1 with
     | Ret true => turn_count gs + 1
     | _ => turn_count gs
     end) ∧
  (∀ piece_id,
     turn_count (select_piece_for_opponent gs piece_id).2 = turn_count gs).
Proof.
  intros Hwf. split.
  - intros row col. rewrite make_move_cases by done.
    case_bool_decide as Hlegal; [|done].
    destruct Hlegal as (_ & _ & _ & [p ->]). cbn zeta.
    case_decide; [|done].
    destruct (update_game_status_returns (placed p row col gs))
      as (st & w & ->); [by apply write_cell_wf | done].
  - intros pid. destruct (decide (selection_legal gs pid)).
    + by rewrite select_piece_for_opponent_accepted.
    + by rewrite select_piece_for_opponent_refused.
Qed.

Lemma turn_count_step_witness :
  (∀ row col,
     turn_count (make_move after_selection row col).2 =
     match (make_move after_selection row col).1 with
     | Ret true => turn_count after_selection + 1
     | _ => turn_count after_selection
     end) ∧
  (∀ piece_id,
     turn_count (select_piece_for_opponent after_selection piece_id).2
     = turn_count after_selection).
Proof. apply (turn_count_step after_selection), after_selection_wf. Defined.

(** * The pool and the board *)

Lemma size_list_to_set_le (l : list Z) :
  (size (list_to_set l : gset Z) ≤ length l)%nat.
Proof.
  induction l as [|x l IH]; [by rewrite list_to_set_nil, size_empty|].
  rewrite list_to_set_cons, size_union_alt, size_singleton. cbn.
  pose proof (subseteq_size (list_to_set l ∖ {[x]}) (list_to_set l : gset Z))
    as Hle.
  assert (list_to_set l ∖ {[x]} ⊆ (list_to_set l : gset Z)) as Hsub.
  { intros k [? _]%elem_of_difference. done. }
  specialize (Hle Hsub). lia.
Qed.

Lemma length_omap_None (l : list (option QuartoPiece)) :
  None ∈ l → (length (omap (λ c, c) l) < length l)%nat.
Proof.
  assert (Hle : ∀ l' : list (option QuartoPiece),
            (length (omap (λ c, c) l') ≤ length l')%nat).
  { intros l'. induction l' as [|[q|] l' IH]; cbn; lia. }
  induction l as [|[q|] l IH]; intros Hin.
  - by apply elem_of_nil in Hin.
  - apply elem_of_cons in Hin as [|Hin]; [done|]. cbn.
    specialize (IH Hin). lia.
  - cbn. specialize (Hle l). lia.
Qed.

Lemma cell_elem_of_concat (b : Board) (rc : nat * nat)
    (c : option QuartoPiece) :
  cell b rc = Some c → c ∈ concat b.
Proof.
  unfold cell. intros Hcell.
  destruct (b !! rc.1) as [row|] eqn:Hrow; [|done]. cbn in Hcell.
  apply elem_of_concat. exists row.
  split; eapply list_elem_of_lookup_2; eauto.
Qed.

(** X25. [is_board_full] looks at the pool, not the board. When the piece
    partition holds and no piece is pending it is right about the 4x4
    board: if it answers [True], no cell is empty. *)
Theorem is_board_full_no_empty_cell (gs : GameState) :
  board_wf (board gs) → partition_ok gs → selected_piece gs = None →
  is_board_full gs = true →
  get_empty_positions gs = Ret [].
Proof.
  intros Hwf (_ & _ & _ & Hall) Hsel Hfull.
  rewrite get_empty_positions_filter by done. f_equal.
  apply bool_decide_eq_true, size_empty_iff, leibniz_equiv in Hfull.
  unfold selected_ids in Hall. rewrite Hsel, Hfull in Hall.
  rewrite (left_id_L ∅ (∪)), (right_id_L ∅ (∪)) in Hall.
  assert (length (omap (λ c, c) (concat (board gs))) ≥ 16)%nat as Hlen.
  { pose proof (size_list_to_set_le
                  (id <$> omap (λ c, c) (concat (board gs)))) as Hle.
    unfold placed_ids in Hall. rewrite Hall, length_fmap in Hle.
    assert (size (list_to_set (range 16) : gset Z) = 16%nat) as Hsize
      by (vm_compute; reflexivity).
    lia. }
  assert (length (concat (board gs)) = 16%nat) as Hcells.
  { destruct (board_wf_cells _ Hwf)
      as (a00&a01&a02&a03&a10&a11&a12&a13&a20&a21&a22&a23&a30&a31&a32&a33&->).
    reflexivity. }
  apply elem_of_nil_inv. intros [row col] [Hempty _]%list_elem_of_filter.
  apply cell_elem_of_concat, length_omap_None in Hempty. lia.
Qed.

Lemma drawn_game_wf : board_wf (board drawn_game).
Proof. split; [reflexivity | repeat constructor]. Qed.

Lemma is_board_full_no_empty_cell_witness :
  get_empty_positions drawn_game = Ret [].
Proof.
  apply is_board_full_no_empty_cell.
  - exact drawn_game_wf.
  - unfold partition_ok. split_and!.
    + intros k Hk. by apply elem_of_empty in Hk.
    + intros k Hk. by apply elem_of_empty in Hk.
    + intros k _ Hk. by apply elem_of_empty in Hk.
    + vm_compute. reflexivity.
  - reflexivity.
  - reflexivity.
Defined.

(** The spec's scenario 3: a full board on which no line shares an
    attribute resolves to a draw with no winner. *)
Example update_game_status_draw :
  update_game_status (set_game_status ONGOING drawn_game)
  = (Ret tt, drawn_game).
Proof. vm_compute. reflexivity. Qed.
